(** * Polygon mask plugin: a shallow embedding of [PolygonMaskInstance.ts]

    The development follows the class [PolygonMaskInstance] of
    [src/plugins/polygonMask/src/PolygonMaskInstance.ts]: its fields become a
    record, its methods become functions in a small state-and-exception monad
    over the instance, its host container, the random source and the network
    log.

    Numbers.  A JavaScript [number] is modelled by an exact rational ([Q]):
    the arithmetic of the source is kept operation by operation, rounding is
    not modelled: where the source rounds a result to a double, the model
    keeps the exact value.  The only irrational operation the class meets is
    the Euclidean distance returned by the engine's [getDistances]; it is kept
    symbolic (see [Distance]) and compared exactly.  The one division whose
    divisor can be zero, in [_getEquidistantPointByIndex], has its own case.

    The methods [draw] and [resize] are modelled after the rest of the class,
    over a record of the drawing calls and the timers of the window. *)

From Stdlib Require Import QArith Qround ZArith List String Bool Lia Lqa.
Import ListNotations.
Local Open Scope Q_scope.

(** ** Numbers and comparisons *)

Definition ltb (a b : Q) : bool := negb (Qle_bool b a).
Definition gtb (a b : Q) : bool := ltb b a.
Definition leb (a b : Q) : bool := Qle_bool a b.
Definition geb (a b : Q) : bool := Qle_bool b a.

(** [Math.floor]. *)
Definition floor (a : Q) : Q := inject_Z (Qfloor a).

(** ** Data model *)

(** [ICoordinates] and [IDimension] of the engine. *)
Record ICoordinates : Type := { x : Q; y : Q }.
Record IDimension : Type := { width : Q; height : Q }.

Module PolygonMaskType.
Inductive t : Type := inline | inside | outside | none.
End PolygonMaskType.

Module PolygonMaskInlineArrangement.
Inductive t : Type := equidistant | onePerPoint | perPoint | randomLength | randomPoint.
End PolygonMaskInlineArrangement.

Module OutModeDirection.
Inductive t : Type := bottom | left | right | top.
End OutModeDirection.

(** The inline [data] option: either a whole SVG text, or path strings with a
    size from which [_initRawData] synthesises an SVG text. *)
Record IPolygonMaskInlineData : Type := {
  data_path : list string;
  data_size : IDimension;
}.

Inductive PolygonMaskData : Type :=
| DataString (svg : string)
| DataObject (d : IPolygonMaskInlineData).

(** The options read from [container.actualOptions.polygon]. *)
Record IPolygonMask : Type := {
  enable : bool;
  type : PolygonMaskType.t;
  url : option string;
  data : option PolygonMaskData;
  position : option ICoordinates;
  scale : Q;
  move_radius : Q;
  inline_arrangement : PolygonMaskInlineArrangement.t;
  draw_enable : bool;
}.

(** What the class reads of an [SVGPathElement]: its [d] attribute, its total
    length and the point at a given length. *)
Record SVGPathElement : Type := {
  attr_d : option string;
  getTotalLength : Q;
  getPointAtLength : Q -> ICoordinates;
}.

(** A [Path2D] as the class builds it: the [d] attribute scaled by a matrix,
    the closed outline drawn through the raw points, or the path
    [new Path2D()] leaves before anything is drawn on it. *)
Inductive Path2D : Type :=
| Path2D_scaled (d : string) (factor : Q)
| Path2D_outline (first : ICoordinates) (rest : list ICoordinates)
| Path2D_new.

Module ISvgPath.
Record t : Type := {
  element : SVGPathElement;
  length : Q;
  path2d : option Path2D;
}.
End ISvgPath.

(** What the class reads of the parsed document: the [svg] elements with
    their numeric [width] and [height] attributes (absent attributes are
    [None]) and their [path] descendants, and the [path] elements of the whole
    document. *)
Record SVGSVGElement : Type := {
  attr_width : option Q;
  attr_height : option Q;
  svg_paths : list SVGPathElement;
}.

Record Document : Type := {
  doc_svgs : list SVGSVGElement;
  doc_paths : list SVGPathElement;
}.

(** The text handed to [_parseSvgPath]: a fetched or inline text, or the text
    synthesised from path strings and a size (the template string is kept
    symbolic). *)
Inductive SvgText : Type :=
| Text (s : string)
| Synthesised (paths : list string) (size : IDimension).

(** The response of [fetch]. *)
Record Response : Type := { ok : bool; text : string }.

(** A Euclidean distance [sqrt q], kept symbolic; comparisons with a rational
    are exact. *)
Inductive Distance : Type := Sqrt (q : Q).

Definition dist_ltb (d : Distance) (r : Q) : bool :=
  match d with Sqrt q => ltb 0 r && ltb q (r * r) end.

Definition dist_gtb (d : Distance) (r : Q) : bool :=
  match d with Sqrt q => ltb r 0 || ltb (r * r) q end.

Record Distances : Type := { dx : Q; dy : Q; distance : Distance }.

(** What the class touches of a [Particle]: the fields it reads and writes,
    and the values its methods [getPosition] and [getRadius] return when the
    bounce calls them, which is before it writes to the particle.  What the
    methods return after [position] was written is the engine's concern and
    is not modelled: no statement reads [getPosition] of a particle whose
    position the bounce has set. *)
Record Particle : Type := {
  particle_position : ICoordinates;
  velocity : ICoordinates;
  initialPosition : option ICoordinates;
  getPosition : ICoordinates;
  getRadius : Q;
}.

(** The fields of [PolygonMaskInstance]. *)
Record PolygonMaskInstance : Type := {
  dimension : IDimension;
  offset : option ICoordinates;
  paths : option (list ISvgPath.t);
  raw : option (list ICoordinates);
  redrawTimeout : option nat;
  _moveRadius : Q;
  _scale : Q;
}.

(** The host container as the class uses it.  [particles] is the particle
    array, one entry per [addParticle] call, holding the requested position;
    [particles.count] is its length. *)
Record Container : Type := {
  polygon : option IPolygonMask;
  particles_number_value : Q;
  canvas_size : IDimension;
  pixelRatio : Q;
  particles : list ICoordinates;
}.

(** Everything a method can read or change: the instance ([this]), the
    container, the number of [getRandom] draws made so far, the URLs fetched
    so far and the events dispatched so far. *)
Record World : Type := {
  this : PolygonMaskInstance;
  container : Container;
  draws : nat;
  fetched : list string;
  dispatched : list string;
}.

(** ** Collaborators that live outside the class

    Functions of [./utils], of the engine and of the browser that the class
    calls and whose code is not part of the file are taken as parameters. *)
Class Externals : Type := {
  (** [calcClosestPtOnSegment] of [./utils] *)
  calcClosestPtOnSegment : ICoordinates -> ICoordinates -> ICoordinates -> ICoordinates;
  (** [segmentBounce] of [./utils], as the velocity it leaves *)
  segmentBounce : ICoordinates -> ICoordinates -> ICoordinates -> ICoordinates;
  (** [parsePaths] of [./utils] *)
  parsePaths : list ISvgPath.t -> Q -> ICoordinates -> list ICoordinates;
  (** [getDistances] of the engine *)
  getDistances : ICoordinates -> ICoordinates -> Distances;
  (** [DOMParser.parseFromString] *)
  parseFromString : SvgText -> Document;
  (** whether [Path2D.addPath] exists in the browser *)
  hasAddPath : bool;
  (** the value of the n-th call of [getRandom] *)
  random : nat -> Q;
  (** the server's answer to [fetch]; [None] when the request fails *)
  server : string -> option Response;
}.

(** ** Results, state and exceptions *)

Inductive Error : Type :=
| NoPolygonDataLoaded
| NoPolygonFound
| DownloadFailed
| NetworkError
| TypeError.

(** [Exhausted] marks a run that used up the recursion budget given to
    [_randomPoint]; no other function produces it. *)
Inductive Result (A : Type) : Type :=
| Ok (a : A)
| Throw (e : Error)
| Exhausted.
Arguments Ok {A} a.
Arguments Throw {A} e.
Arguments Exhausted {A}.

(** A method takes the world it starts in and leaves a result and the world
    it ends in; what was written before an exception stays written. *)
Definition M (A : Type) : Type := World -> Result A * World.

Definition ret {A} (a : A) : M A := fun w => (Ok a, w).

Definition bind {A B} (m : M A) (k : A -> M B) : M B :=
  fun w => match m w with
           | (Ok a, w') => k a w'
           | (Throw e, w') => (Throw e, w')
           | (Exhausted, w') => (Exhausted, w')
           end.

Definition throw {A} (e : Error) : M A := fun w => (Throw e, w).
Definition get : M World := fun w => (Ok w, w).
Definition put (w : World) : M unit := fun _ => (Ok tt, w).
Definition lift {A} (r : Result A) : M A := fun w => (r, w).

Declare Scope js_scope.
Delimit Scope js_scope with js.
Notation "'let*' v := m 'in' k" := (bind m (fun v => k))
  (at level 10, v name, m at level 100, k at level 200) : js_scope.
Notation "m ;; k" := (bind m (fun _ => k))
  (at level 100, k at level 200, right associativity) : js_scope.
Local Open Scope js_scope.

(** Field updates. *)
Definition set_this (i : PolygonMaskInstance) (w : World) : World :=
  {| this := i; container := container w; draws := draws w;
     fetched := fetched w; dispatched := dispatched w |}.
Definition set_container (c : Container) (w : World) : World :=
  {| this := this w; container := c; draws := draws w;
     fetched := fetched w; dispatched := dispatched w |}.
Definition set_draws (n : nat) (w : World) : World :=
  {| this := this w; container := container w; draws := n;
     fetched := fetched w; dispatched := dispatched w |}.
Definition set_fetched (l : list string) (w : World) : World :=
  {| this := this w; container := container w; draws := draws w;
     fetched := l; dispatched := dispatched w |}.
Definition set_dispatched (l : list string) (w : World) : World :=
  {| this := this w; container := container w; draws := draws w;
     fetched := fetched w; dispatched := l |}.

Definition set_raw (r : option (list ICoordinates)) (i : PolygonMaskInstance) :=
  {| dimension := dimension i; offset := offset i; paths := paths i; raw := r;
     redrawTimeout := redrawTimeout i; _moveRadius := _moveRadius i; _scale := _scale i |}.
Definition set_paths (p : option (list ISvgPath.t)) (i : PolygonMaskInstance) :=
  {| dimension := dimension i; offset := offset i; paths := p; raw := raw i;
     redrawTimeout := redrawTimeout i; _moveRadius := _moveRadius i; _scale := _scale i |}.
Definition set_offset (o : option ICoordinates) (i : PolygonMaskInstance) :=
  {| dimension := dimension i; offset := o; paths := paths i; raw := raw i;
     redrawTimeout := redrawTimeout i; _moveRadius := _moveRadius i; _scale := _scale i |}.
Definition set_dimension (d : IDimension) (i : PolygonMaskInstance) :=
  {| dimension := d; offset := offset i; paths := paths i; raw := raw i;
     redrawTimeout := redrawTimeout i; _moveRadius := _moveRadius i; _scale := _scale i |}.
Definition set_moveRadius (r : Q) (i : PolygonMaskInstance) :=
  {| dimension := dimension i; offset := offset i; paths := paths i; raw := raw i;
     redrawTimeout := redrawTimeout i; _moveRadius := r; _scale := _scale i |}.
Definition set_scale (s : Q) (i : PolygonMaskInstance) :=
  {| dimension := dimension i; offset := offset i; paths := paths i; raw := raw i;
     redrawTimeout := redrawTimeout i; _moveRadius := _moveRadius i; _scale := s |}.

Definition set_particles (l : list ICoordinates) (c : Container) : Container :=
  {| polygon := polygon c; particles_number_value := particles_number_value c;
     canvas_size := canvas_size c; pixelRatio := pixelRatio c; particles := l |}.

Definition set_position (p : ICoordinates) (pt : Particle) : Particle :=
  {| particle_position := p; velocity := velocity pt;
     initialPosition := initialPosition pt; getPosition := getPosition pt;
     getRadius := getRadius pt |}.
Definition set_velocity (v : ICoordinates) (pt : Particle) : Particle :=
  {| particle_position := particle_position pt; velocity := v;
     initialPosition := initialPosition pt; getPosition := getPosition pt;
     getRadius := getRadius pt |}.

(** The constructor of the class. *)
Definition new_PolygonMaskInstance : PolygonMaskInstance :=
  {| dimension := {| width := 0; height := 0 |};
     offset := None; paths := None; raw := None; redrawTimeout := None;
     _moveRadius := 0; _scale := 1 |}.

(** A JavaScript string used as a condition: absent and empty are falsy. *)
Definition truthy (s : option string) : option string :=
  match s with
  | Some EmptyString => None
  | other => other
  end.

(** Reading [array[k]]: [undefined] outside the array. *)
Definition array_get {A} (array : list A) (k : Z) : option A :=
  if (k <? 0)%Z then None else nth_error array (Z.to_nat k).

(** Modelled from the spec: the engine's [Vector.mult], whose code is not in
    the file; section 4.5 has the velocity inverted, each component being
    multiplied by the factor.  The method answers the product as a new vector
    and does not write to the vector it is called on. *)
Definition mult (v : ICoordinates) (n : Q) : ICoordinates :=
  {| x := x v * n; y := y v * n |}.

(** What [deepExtend({}, source)] yields: a fresh object with the fields of
    the source, or the empty object. *)
Inductive Extended : Type :=
| Copy (p : ICoordinates)
| EmptyObject.

(** Modelled from the spec: the engine's [deepExtend], whose code is not in
    the file, applied to an empty destination: a copy of the source, and the
    empty object when the source is [undefined]. *)
Definition deepExtend (source : option ICoordinates) : Extended :=
  match source with
  | Some p => Copy {| x := x p; y := y p |}
  | None => EmptyObject
  end.

Section Instance.

Context {E : Externals}.

(** [getRandom] of the engine: the next value of the random source. *)
Definition getRandom : M Q :=
  fun w => (Ok (random (draws w)), set_draws (S (draws w)) w).

(** ** [_checkInsidePolygon] *)

(** The test of one edge, [intersect] in the source; [&&] evaluates the
    division only when the two [y] differ.  The interpolation is exact here,
    where the source rounds every operation to a double: an edge whose exact
    abscissa at [y0] is [x0] itself may be counted by the source and is not
    counted here. *)
Definition intersect (pi pj : ICoordinates) (x0 y0 : Q) : bool :=
  if negb (Bool.eqb (gtb (y pi) y0) (gtb (y pj) y0))
  then ltb x0 ((x pj - x pi) * (y0 - y pi) / (y pj - y pi) + x pi)
  else false.

(** The loop [for (let i = 0, j = raw.length - 1; i < raw.length; j = i++)]:
    [n] counts the iterations left, so the loop is entered with [i = 0],
    [j = raw.length - 1] and [n = raw.length].  Reading a property of an
    element that is not there throws a [TypeError]. *)
Fixpoint checkInside_loop (raw : list ICoordinates) (x0 y0 : Q)
         (n i j : nat) (inside : bool) : Result bool :=
  match n with
  | O => Ok inside
  | S n' =>
      match nth_error raw i, nth_error raw j with
      | Some pi, Some pj =>
          checkInside_loop raw x0 y0 n' (S i) i
            (if intersect pi pj x0 y0 then negb inside else inside)
      | _, _ => Throw TypeError
      end
  end.

Definition _checkInsidePolygon (position : option ICoordinates) : M bool :=
  let* w := get in
  match polygon (container w) with
  | None => ret true
  | Some options =>
      match enable options, type options with
      | false, _ => ret true
      | true, PolygonMaskType.none => ret true
      | true, PolygonMaskType.inline => ret true
      | true, ty =>
          match raw (this w) with
          | None => throw NoPolygonFound
          | Some raw =>
              let canvasSize := canvas_size (container w) in
              let* x0 := match position with
                         | Some p => ret (x p)
                         | None => let* r := getRandom in ret (r * width canvasSize)
                         end in
              let* y0 := match position with
                         | Some p => ret (y p)
                         | None => let* r := getRandom in ret (r * height canvasSize)
                         end in
              let* inside :=
                lift (checkInside_loop raw x0 y0 (List.length raw) 0
                        (List.length raw - 1) false) in
              ret (match ty with
                   | PolygonMaskType.inside => inside
                   | PolygonMaskType.outside => negb inside
                   | _ => false
                   end)
          end
      end
  end.

(** ** [clickPositionValid] *)

Definition clickPositionValid (position : ICoordinates) : M bool :=
  let* w := get in
  match polygon (container w) with
  | None => ret false
  | Some options =>
      match enable options, type options with
      | false, _ => ret false
      | true, PolygonMaskType.none => ret false
      | true, PolygonMaskType.inline => ret false
      | true, _ => _checkInsidePolygon (Some position)
      end
  end.

(** ** Samplers *)

(** Modelled from the spec: the engine's [itemFromArray], whose code is not in
    the file; section 4.4 has it pick one existing element at random, here the
    element at [Math.floor(getRandom() * array.length)]. *)
Definition itemFromArray {A} (array : list A) : M (option A) :=
  let* r := getRandom in
  ret (array_get array (Qfloor (r * inject_Z (Z.of_nat (List.length array))))).

(** [index % raw.length] is the remainder of the truncated division, as in
    JavaScript. *)
Definition _getPointByIndex (index : Z) : M ICoordinates :=
  let* w := get in
  match raw (this w) with
  | None | Some [] => throw NoPolygonDataLoaded
  | Some raw =>
      match array_get raw (Z.rem index (Z.of_nat (List.length raw))) with
      | Some coords => ret {| x := x coords; y := y coords |}
      | None => throw TypeError
      end
  end.

Definition _getRandomPoint : M ICoordinates :=
  let* w := get in
  match raw (this w) with
  | None | Some [] => throw NoPolygonDataLoaded
  | Some raw =>
      let* item := itemFromArray raw in
      match item with
      | Some coords => ret {| x := x coords; y := y coords |}
      | None => throw TypeError
      end
  end.

(** [offset?.x || 0] and [offset?.x ?? 0] agree on rationals. *)
Definition offset_x (i : PolygonMaskInstance) : Q :=
  match offset i with Some o => x o | None => 0 end.
Definition offset_y (i : PolygonMaskInstance) : Q :=
  match offset i with Some o => y o | None => 0 end.

Definition _getRandomPointByLength : M (option ICoordinates) :=
  let* w := get in
  match polygon (container w) with
  | None => ret None
  | Some options =>
      match raw (this w), paths (this w) with
      | Some (_ :: _), Some ((_ :: _) as paths) =>
          let* item := itemFromArray paths in
          match item with
          | None => throw TypeError
          | Some path =>
              let* r := getRandom in
              let distance := floor (r * ISvgPath.length path) + 1 in
              let point := getPointAtLength (ISvgPath.element path) distance in
              let scale := _scale (this w) in
              ret (Some {| x := x point * scale + offset_x (this w);
                           y := y point * scale + offset_y (this w) |})
          end
      | _, _ => throw NoPolygonDataLoaded
      end
  end.

(** The loop of [_getEquidistantPointByIndex] over the paths: [target] is
    [distance * index], [offset] the lengths of the paths passed so far; the
    result is the path chosen and the length handed to [getPointAtLength], or
    [None] when the loop ends without a [break]. *)
Fixpoint equidistant_loop (paths : list ISvgPath.t) (target offset : Q)
  : option (ISvgPath.t * Q) :=
  match paths with
  | [] => None
  | path :: rest =>
      let pathDistance := target - offset in
      if leb pathDistance (ISvgPath.length path)
      then Some (path, pathDistance)
      else equidistant_loop rest target (offset + ISvgPath.length path)
  end.

(** [totalLength], the [reduce] over the paths. *)
Definition totalLength (paths : list ISvgPath.t) : Q :=
  fold_left (fun tot path => tot + ISvgPath.length path) paths 0.

(** [distance * index], for [distance = totalLength / number].  With a
    particle number of zero JavaScript yields NaN or an infinity for the
    quotient, and so for its product with the index: for the indices the
    class passes (a particle count, from 0 on) over lengths that are not
    negative this is NaN or [Infinity], for which no test
    [pathDistance <= path.length] holds.  [None] stands for such a target; a
    target of [-Infinity], which takes a negative index or a negative total,
    is not modelled apart. *)
Definition equidistant_target (total number : Q) (index : Z) : option Q :=
  if Qeq_bool number 0 then None else Some (total / number * inject_Z index).

Definition _getEquidistantPointByIndex (index : Z) : M (option ICoordinates) :=
  let* w := get in
  match polygon (container w) with
  | None => ret None
  | Some polygonMaskOptions =>
      match raw (this w), paths (this w) with
      | Some (_ :: _), Some ((_ :: _) as paths) =>
          let point :=
            match equidistant_target (totalLength paths)
                    (particles_number_value (container w)) index with
            | Some target =>
                match equidistant_loop paths target 0 with
                | Some (path, pathDistance) =>
                    Some (getPointAtLength (ISvgPath.element path) pathDistance)
                | None => None
                end
            | None => None
            end in
          let scale := _scale (this w) in
          ret (Some {| x := match point with Some p => x p | None => 0 end * scale
                            + offset_x (this w);
                       y := match point with Some p => y p | None => 0 end * scale
                            + offset_y (this w) |})
      | _, _ => throw NoPolygonDataLoaded
      end
  end.

(** [container.particles.count]. *)
Definition particles_count (c : Container) : Z := Z.of_nat (List.length (particles c)).

(** [_randomPoint] calls itself until a point passes the test; [fuel] bounds
    the number of calls, and a run that needs more ends in [Exhausted]. *)
Fixpoint _randomPoint (fuel : nat) : M (option ICoordinates) :=
  match fuel with
  | O => fun w => (Exhausted, w)
  | S fuel' =>
      let* w := get in
      match polygon (container w) with
      | None => ret None
      | Some options =>
          let count := particles_count (container w) in
          let* position :=
            match type options with
            | PolygonMaskType.inline =>
                match inline_arrangement options with
                | PolygonMaskInlineArrangement.randomPoint =>
                    let* p := _getRandomPoint in ret (Some p)
                | PolygonMaskInlineArrangement.randomLength =>
                    _getRandomPointByLength
                | PolygonMaskInlineArrangement.equidistant =>
                    _getEquidistantPointByIndex count
                | PolygonMaskInlineArrangement.onePerPoint
                | PolygonMaskInlineArrangement.perPoint =>
                    let* p := _getPointByIndex count in ret (Some p)
                end
            | _ =>
                let canvasSize := canvas_size (container w) in
                let* rx := getRandom in
                let* ry := getRandom in
                ret (Some {| x := rx * width canvasSize; y := ry * height canvasSize |})
            end in
          let* inside := _checkInsidePolygon position in
          if inside then ret position else _randomPoint fuel'
      end
  end.

(** ** [particlePosition] *)

Definition particlePosition (fuel : nat) (position : option ICoordinates)
  : M (option Extended) :=
  let* w := get in
  let loaded :=
    match polygon (container w) with
    | Some options =>
        enable options &&
        ltb 0 (match raw (this w) with
               | Some raw => inject_Z (Z.of_nat (List.length raw))
               | None => 0
               end)
    | None => false
    end in
  if negb loaded then ret None
  else
    match position with
    | Some p => ret (Some (deepExtend (Some p)))
    | None => let* p := _randomPoint fuel in ret (Some (deepExtend p))
    end.

(** ** [particlesInitialization] and [_drawPoints] *)

(** [container.particles.addParticle]: the host's array gains one entry. *)
Definition addParticle (p : ICoordinates) : M unit :=
  fun w => (Ok tt, set_container
                     (set_particles (particles (container w) ++ [p]) (container w)) w).

Fixpoint for_of {A} (items : list A) (body : A -> M unit) : M unit :=
  match items with
  | [] => ret tt
  | item :: rest => body item ;; for_of rest body
  end.

Definition _drawPoints : M unit :=
  let* w := get in
  match raw (this w) with
  | None => ret tt
  | Some raw => for_of raw (fun item => addParticle {| x := x item; y := y item |})
  end.

Definition particlesInitialization : M bool :=
  let* w := get in
  match polygon (container w) with
  | None => ret false
  | Some options =>
      match enable options, type options, inline_arrangement options with
      | true, PolygonMaskType.inline, PolygonMaskInlineArrangement.onePerPoint
      | true, PolygonMaskType.inline, PolygonMaskInlineArrangement.perPoint =>
          _drawPoints ;; ret true
      | _, _, _ => ret false
      end
  end.

(** ** [stop] *)

Definition stop : M unit :=
  fun w => (Ok tt, set_this (set_paths None (set_raw None (this w))) w).

(** ** Loading: [_parseSvgPath], [_downloadSvgPath], [_createPath2D],
       [_initRawData], [init] *)

(** [parseFloat(svg.getAttribute(name) ?? "0")]. *)
Definition parseFloat_attr (a : option Q) : Q :=
  match a with Some v => v | None => 0 end.

(** [force ?? false]. *)
Definition forceDownload (force : option bool) : bool :=
  match force with Some b => b | None => false end.

Definition _parseSvgPath (xml : SvgText) (force : option bool)
  : M (option (list ICoordinates)) :=
  let* w := get in
  match paths (this w), forceDownload force with
  | Some _, false => ret (raw (this w))
  | _, _ =>
      match polygon (container w) with
      | None => ret None
      | Some options =>
          let doc := parseFromString xml in
          match doc_svgs doc with
          | [] => throw TypeError
          | svg :: _ =>
              let svgPaths :=
                match svg_paths svg with
                | [] => doc_paths doc
                | found => found
                end in
              let paths :=
                map (fun path => {| ISvgPath.element := path;
                                    ISvgPath.length := getTotalLength path;
                                    ISvgPath.path2d := None |}) svgPaths in
              let scale := _scale (this w) in
              let dimension :=
                {| width := parseFloat_attr (attr_width svg) * scale;
                   height := parseFloat_attr (attr_height svg) * scale |} in
              let position :=
                match position options with
                | Some p => p
                | None => {| x := 50; y := 50 |}
                end in
              let canvasSize := canvas_size (container w) in
              let offset :=
                {| x := width canvasSize * x position / 100 - width dimension / 2;
                   y := height canvasSize * y position / 100 - height dimension / 2 |} in
              put (set_this (set_offset (Some offset)
                               (set_dimension dimension
                                  (set_paths (Some paths) (this w)))) w) ;;
              ret (Some (parsePaths paths scale offset))
          end
      end
  end.

(** [fetch]: the request is logged and the server's answer returned. *)
Definition fetch (url : string) : M Response :=
  fun w =>
    let w' := set_fetched (fetched w ++ [url]) w in
    match server url with
    | Some req => (Ok req, w')
    | None => (Throw NetworkError, w')
    end.

Definition _downloadSvgPath (svgUrl : option string) (force : option bool)
  : M (option (list ICoordinates)) :=
  let* w := get in
  match polygon (container w) with
  | None => ret None
  | Some options =>
      let url := match truthy svgUrl with
                 | Some u => Some u
                 | None => url options
                 end in
      match truthy url, paths (this w), forceDownload force with
      | None, _, _ => ret (raw (this w))
      | Some _, Some _, false => ret (raw (this w))
      | Some u, _, _ =>
          let* req := fetch u in
          if negb (ok req) then throw DownloadFailed
          else _parseSvgPath (Text (text req)) force
      end
  end.

Definition set_path2d (p : option Path2D) (path : ISvgPath.t) : ISvgPath.t :=
  {| ISvgPath.element := ISvgPath.element path;
     ISvgPath.length := ISvgPath.length path;
     ISvgPath.path2d := p |}.

(** One iteration of the loop of [_createPath2D]. *)
Definition createPath2D_step (scale : Q) (raw : option (list ICoordinates))
           (path : ISvgPath.t) : Result ISvgPath.t :=
  let path2d :=
    match truthy (attr_d (ISvgPath.element path)) with
    | Some pathData => if hasAddPath then Some (Path2D_scaled pathData scale) else None
    | None => None
    end in
  match path2d, raw with
  | Some _, _ => Ok (set_path2d path2d path)
  | None, None => Ok (set_path2d None path)
  | None, Some [] => Throw TypeError
  | None, Some (first :: rest) => Ok (set_path2d (Some (Path2D_outline first rest)) path)
  end.

(** The path an iteration leaves when it throws: the exception comes from
    [this.raw[0].x], after the [path2d] of the path was deleted and
    [path.path2d = new Path2D()] was assigned. *)
Definition createPath2D_started (path : ISvgPath.t) : ISvgPath.t :=
  set_path2d (Some Path2D_new) path.

(** The loop of [_createPath2D]: [done] are the paths already treated; an
    exception leaves them treated, the path it was raised on with the new
    empty [Path2D], and the others as they were. *)
Fixpoint createPath2D_loop (scale : Q) (raw : option (list ICoordinates))
         (done todo : list ISvgPath.t) : Result unit * list ISvgPath.t :=
  match todo with
  | [] => (Ok tt, done)
  | path :: rest =>
      match createPath2D_step scale raw path with
      | Ok path' => createPath2D_loop scale raw (done ++ [path']) rest
      | Throw e => (Throw e, done ++ createPath2D_started path :: rest)
      | Exhausted => (Exhausted, done ++ path :: rest)
      end
  end.

Definition _createPath2D : M unit :=
  let* w := get in
  match polygon (container w), paths (this w) with
  | Some options, Some ((_ :: _) as paths) =>
      let (r, paths') := createPath2D_loop (_scale (this w)) (raw (this w)) [] paths in
      put (set_this (set_paths (Some paths') (this w)) w) ;;
      lift r
  | _, _ => ret tt
  end.

(** [engine.dispatchEvent]. *)
Definition dispatchEvent (name : string) : M unit :=
  fun w => (Ok tt, set_dispatched (dispatched w ++ [name]) w).

Definition assign_raw (r : option (list ICoordinates)) : M unit :=
  fun w => (Ok tt, set_this (set_raw r (this w)) w).

Definition _initRawData (force : option bool) : M unit :=
  let* w := get in
  match polygon (container w) with
  | None => ret tt
  | Some options =>
      match truthy (url options), data options with
      | Some u, _ =>
          let* r := _downloadSvgPath (Some u) force in assign_raw r
      | None, Some (DataString EmptyString) => ret tt
      | None, Some (DataString svg) =>
          let* r := _parseSvgPath (Text svg) force in assign_raw r
      | None, Some (DataObject d) =>
          let* r := _parseSvgPath (Synthesised (data_path d) (data_size d)) force in
          assign_raw r
      | None, None => ret tt
      end ;;
      _createPath2D ;;
      dispatchEvent "polygonMaskLoaded"
  end.

Definition init : M unit :=
  let* w := get in
  match polygon (container w) with
  | None => ret tt
  | Some polygonMaskOptions =>
      let pxRatio := pixelRatio (container w) in
      put (set_this (set_scale (scale polygonMaskOptions * pxRatio)
                       (set_moveRadius (move_radius polygonMaskOptions * pxRatio)
                          (this w))) w) ;;
      if enable polygonMaskOptions then _initRawData None else ret tt
  end.

(** ** [_polygonBounce] and [particleBounce] *)

(** How the loop over the edges ends: with a bounce on an edge (the early
    [return true], carrying the velocity [segmentBounce] leaves), or after the
    last edge, with the last values of [closest], [dx] and [dy]. *)
Inductive EdgeScan : Type :=
| Bounced (v : ICoordinates)
| Passed (closest : option ICoordinates) (dx dy : option Q).

(** The loop [for (let i = 0, j = raw.length - 1; i < raw.length; j = i++)]
    of [_polygonBounce]; [n] counts the iterations left. *)
Fixpoint polygonBounce_loop (raw : list ICoordinates) (pos : ICoordinates)
         (radius : Q) (v : ICoordinates) (n i j : nat)
         (closest : option ICoordinates) (dx0 dy0 : option Q) : Result EdgeScan :=
  match n with
  | O => Ok (Passed closest dx0 dy0)
  | S n' =>
      match nth_error raw i, nth_error raw j with
      | Some pi, Some pj =>
          let closest := calcClosestPtOnSegment pi pj pos in
          let dist := getDistances pos closest in
          if dist_ltb (distance dist) radius
          then Ok (Bounced (segmentBounce pi pj v))
          else polygonBounce_loop raw pos radius v n' (S i) i
                 (Some closest) (Some (dx dist)) (Some (dy dist))
      | _, _ => Throw TypeError
      end
  end.

(** The engine's [getDistance] is the [distance] of [getDistances]. *)
Definition getDistance (a b : ICoordinates) : Distance := distance (getDistances a b).

(** The particle is mutated by the source; here the particle it leaves is
    returned with the answer.  The argument [_delta] is not read by the source
    and is left out. *)
Definition _polygonBounce (particle : Particle) (direction : OutModeDirection.t)
  : M (bool * Particle) :=
  let* w := get in
  match raw (this w), polygon (container w), direction with
  | Some raw, Some options, OutModeDirection.top =>
      if negb (enable options) then ret (false, particle)
      else
        match type options with
        | PolygonMaskType.inside | PolygonMaskType.outside =>
            let pos := getPosition particle in
            let radius := getRadius particle in
            let* scan :=
              lift (polygonBounce_loop raw pos radius (velocity particle)
                      (List.length raw) 0 (List.length raw - 1) None None None) in
            match scan with
            | Bounced v => ret (true, set_velocity v particle)
            | Passed (Some closest) (Some _) (Some _) =>
                let* inside := _checkInsidePolygon (Some pos) in
                if negb inside then
                  let diameter := radius * 2 in
                  let factor_x := if geb (x pos) (x closest) then -1 else 1 in
                  let factor_y := if geb (y pos) (y closest) then -1 else 1 in
                  let particle' :=
                    set_position {| x := x closest + diameter * factor_x;
                                    y := y closest + diameter * factor_y |} particle in
                  (* [particle.velocity.mult(-1);] is a statement of its own:
                     the product is computed and stored nowhere *)
                  let _ := mult (velocity particle') (-1) in
                  ret (true, particle')
                else ret (false, particle)
            | Passed _ _ _ => ret (false, particle)
            end
        | PolygonMaskType.inline =>
            match initialPosition particle with
            | Some initial =>
                let dist := getDistance initial (getPosition particle) in
                let velocity := velocity particle in
                if dist_gtb dist (_moveRadius (this w)) then
                  let vx := y velocity / 2 - x velocity in
                  let vy := vx / 2 - y velocity in
                  ret (true, set_velocity {| x := vx; y := vy |} particle)
                else ret (false, particle)
            | None => ret (false, particle)
            end
        | PolygonMaskType.none => ret (false, particle)
        end
  | _, _, _ => ret (false, particle)
  end.

Definition particleBounce (particle : Particle) (direction : OutModeDirection.t)
  : M (bool * Particle) :=
  _polygonBounce particle direction.

End Instance.

(** * Specification-side definitions *)

(** ** Even-odd ray casting, as the specification words it *)

(** The edges [(p_i, p_j)] of the closed polygon: every vertex with the vertex
    before it, the first vertex with the last. *)
Fixpoint edges_from (prev : ICoordinates) (vertices : list ICoordinates)
  : list (ICoordinates * ICoordinates) :=
  match vertices with
  | [] => []
  | p :: rest => (p, prev) :: edges_from p rest
  end.

Definition closed_edges (polygon : list ICoordinates)
  : list (ICoordinates * ICoordinates) :=
  match polygon with
  | [] => []
  | p0 :: _ => edges_from (last polygon p0) polygon
  end.

(** The x of the edge at height [y0], by linear interpolation. *)
Definition crossing_x (pi pj : ICoordinates) (y0 : Q) : Q :=
  (x pj - x pi) * (y0 - y pi) / (y pj - y pi) + x pi.

(** An edge crosses the ray from [(x0, y0)]: one endpoint is strictly above
    [y0], the other is not, and the edge at [y0] lies to the right of [x0]. *)
Definition crosses_ray (edge : ICoordinates * ICoordinates) (x0 y0 : Q) : Prop :=
  let (pi, pj) := edge in
  ((y0 < y pi /\ y pj <= y0) \/ (y0 < y pj /\ y pi <= y0)) /\
  x0 < crossing_x pi pj y0.

(** The flag after the edges: it starts [false] and every crossing edge, and
    no other, toggles it. *)
Inductive EvenOdd (x0 y0 : Q) : list (ICoordinates * ICoordinates) -> bool -> Prop :=
| EvenOdd_nil : EvenOdd x0 y0 [] false
| EvenOdd_toggle edge edges flag :
    crosses_ray edge x0 y0 -> EvenOdd x0 y0 edges flag ->
    EvenOdd x0 y0 (edge :: edges) (negb flag)
| EvenOdd_keep edge edges flag :
    ~ crosses_ray edge x0 y0 -> EvenOdd x0 y0 edges flag ->
    EvenOdd x0 y0 (edge :: edges) flag.

(** The flag after one iteration of the loop. *)
Definition toggle (x0 y0 : Q) (inside : bool) (edge : ICoordinates * ICoordinates) : bool :=
  if intersect (fst edge) (snd edge) x0 y0 then negb inside else inside.

(** The result of [_checkInsidePolygon] at a given position when the mask is
    enabled, of type [inside] or [outside], and a polygon is loaded. *)
Definition masked (ty : PolygonMaskType.t) (inside : bool) : bool :=
  match ty with
  | PolygonMaskType.inside => inside
  | PolygonMaskType.outside => negb inside
  | _ => false
  end.


(** The point [_checkInsidePolygon] tests: the position given, or else the
    point made of the next two random draws scaled to the canvas. *)
Definition test_point {E : Externals} (w : World) (position : option ICoordinates)
  : ICoordinates :=
  match position with
  | Some p => p
  | None => {| x := random (draws w) * width (canvas_size (container w));
               y := random (S (draws w)) * height (canvas_size (container w)) |}
  end.

(** The world [_checkInsidePolygon] leaves: two more draws when no position
    was given. *)
Definition after_test (w : World) (position : option ICoordinates) : World :=
  match position with
  | Some _ => w
  | None => set_draws (S (S (draws w))) w
  end.

(** The same world with another mask type configured. *)
Definition set_type (ty : PolygonMaskType.t) (o : IPolygonMask) : IPolygonMask :=
  {| enable := enable o; type := ty; url := url o; data := data o;
     position := position o; scale := scale o; move_radius := move_radius o;
     inline_arrangement := inline_arrangement o; draw_enable := draw_enable o |}.

Definition set_polygon (o : option IPolygonMask) (c : Container) : Container :=
  {| polygon := o; particles_number_value := particles_number_value c;
     canvas_size := canvas_size c; pixelRatio := pixelRatio c;
     particles := particles c |}.

Definition with_type (ty : PolygonMaskType.t) (w : World) : World :=
  set_container
    (set_polygon (option_map (set_type ty) (polygon (container w))) (container w)) w.

(** ** A host to run the methods on *)

Definition pt (a b : Q) : ICoordinates := {| x := a; y := b |}.

(** The square of the specification's containment property. *)
Definition square : list ICoordinates := [pt 0 0; pt 10 0; pt 10 10; pt 0 10].

(** Modelled from the spec: [calcClosestPtOnSegment] of [./utils], whose code
    is not in the file; section 4.3 has it project the point orthogonally onto
    the segment and clamp to the endpoints when the projection parameter
    leaves the interval from 0 to 1. *)
Definition closestPtOnSegment (s1 s2 pos : ICoordinates) : ICoordinates :=
  let dxx := x s2 - x s1 in
  let dyy := y s2 - y s1 in
  let t := ((x pos - x s1) * dxx + (y pos - y s1) * dyy) / (dxx * dxx + dyy * dyy) in
  if ltb t 0 then s1
  else if ltb 1 t then s2
  else {| x := x s1 + dxx * t; y := y s1 + dyy * t |}.

(** Modelled from the spec: [getDistances] of the engine, whose code is not in
    the file; section 2 has it decompose the vector between two points into
    its components and its length. *)
Definition vectorDistances (a b : ICoordinates) : Distances :=
  let dx := x a - x b in
  let dy := y a - y b in
  {| dx := dx; dy := dy; distance := Sqrt (dx * dx + dy * dy) |}.

(** Modelled from the spec: [segmentBounce] of [./utils], whose code is not in
    the file; section 4.3 has it reflect the velocity across the normal of the
    segment. *)
Definition reflectVelocity (a b v : ICoordinates) : ICoordinates :=
  let nx := y a - y b in
  let ny := x b - x a in
  let d := 2 * (x v * nx + y v * ny) / (nx * nx + ny * ny) in
  {| x := x v - d * nx; y := y v - d * ny |}.

(** The outline of [square] as a path element: its perimeter walked from the
    first vertex. *)
Definition square_point_at (l : Q) : ICoordinates :=
  if leb l 10 then pt l 0
  else if leb l 20 then pt 10 (l - 10)
  else if leb l 30 then pt (30 - l) 10
  else pt 0 (40 - l).

Definition square_element : SVGPathElement :=
  {| attr_d := Some "M0 0L10 0L10 10L0 10Z"%string;
     getTotalLength := 40;
     getPointAtLength := square_point_at |}.

(** The document every text parses to on this host: one [svg] of 200 by 100
    holding the square. *)
Definition square_document : Document :=
  {| doc_svgs := [ {| attr_width := Some 200; attr_height := Some 100;
                      svg_paths := [square_element] |} ];
     doc_paths := [square_element] |}.

(** The anchors of the paths on this host: the points at the four corners of
    each outline, scaled and moved by the offset. *)
Definition square_anchors (paths : list ISvgPath.t) (scale : Q) (offset : ICoordinates)
  : list ICoordinates :=
  flat_map (fun path =>
              map (fun l => let p := getPointAtLength (ISvgPath.element path) l in
                            {| x := x p * scale + x offset; y := y p * scale + y offset |})
                  [0; 10; 20; 30]) paths.

Definition sample_host : Externals :=
  {| calcClosestPtOnSegment := closestPtOnSegment;
     segmentBounce := reflectVelocity;
     parsePaths := square_anchors;
     getDistances := vectorDistances;
     parseFromString := fun _ => square_document;
     hasAddPath := true;
     random := fun n => inject_Z (Z.of_nat (n mod 4)) / 4;
     server := fun _ => Some {| ok := true; text := "<svg/>"%string |} |}.

Definition sample_options (ty : PolygonMaskType.t)
           (arrangement : PolygonMaskInlineArrangement.t) : IPolygonMask :=
  {| enable := true; type := ty; url := Some "https://particles.js.org/square.svg"%string;
     data := None; position := Some (pt 50 50); scale := 1; move_radius := 10;
     inline_arrangement := arrangement; draw_enable := false |}.

Definition sample_container (ty : PolygonMaskType.t)
           (arrangement : PolygonMaskInlineArrangement.t) : Container :=
  {| polygon := Some (sample_options ty arrangement);
     particles_number_value := 4;
     canvas_size := {| width := 800; height := 600 |};
     pixelRatio := 1;
     particles := [] |}.

(** A world whose instance holds [square], unmoved, as its polygon. *)
Definition square_instance : PolygonMaskInstance :=
  {| dimension := {| width := 10; height := 10 |};
     offset := Some (pt 0 0);
     paths := Some [ {| ISvgPath.element := square_element;
                        ISvgPath.length := 40;
                        ISvgPath.path2d := None |} ];
     raw := Some square;
     redrawTimeout := None;
     _moveRadius := 10;
     _scale := 1 |}.

Definition square_world (ty : PolygonMaskType.t)
           (arrangement : PolygonMaskInlineArrangement.t) : World :=
  {| this := square_instance;
     container := sample_container ty arrangement;
     draws := 0; fetched := []; dispatched := [] |}.

(** A world whose instance was just constructed. *)
Definition fresh_world (ty : PolygonMaskType.t)
           (arrangement : PolygonMaskInlineArrangement.t) : World :=
  {| this := new_PolygonMaskInstance;
     container := sample_container ty arrangement;
     draws := 0; fetched := []; dispatched := [] |}.

(** ** The edge scan of [_polygonBounce] *)

(** No edge of the polygon lies within the radius of the particle: on every
    edge the distance from the position to the closest point of the edge is
    not below the radius. *)
Definition no_edge_within {E : Externals} (vertices : list ICoordinates)
           (pos : ICoordinates) (radius : Q) : Prop :=
  forall edge, In edge (closed_edges vertices) ->
    dist_ltb (distance (getDistances pos
                          (calcClosestPtOnSegment (fst edge) (snd edge) pos)))
             radius = false.

(** What an edge leaves in [closest], [dx] and [dy] when it is passed. *)
Definition pass_edge {E : Externals} (pos : ICoordinates) (_ : EdgeScan)
           (edge : ICoordinates * ICoordinates) : EdgeScan :=
  let closest := calcClosestPtOnSegment (fst edge) (snd edge) pos in
  let dist := getDistances pos closest in
  Passed (Some closest) (Some (dx dist)) (Some (dy dist)).

(** The particle of the examples: at [pos], moving up and to the right. *)
Definition sample_particle (pos : ICoordinates) (radius : Q) : Particle :=
  {| particle_position := pos;
     velocity := pt 1 (-1);
     initialPosition := Some pos;
     getPosition := pos;
     getRadius := radius |}.

(** ** Loading *)

(** The first statement of [_initRawData] after the options are read: the
    polygon is taken from the URL, or else from the inline data. *)
Definition load_source {E : Externals} (options : IPolygonMask) (force : option bool)
  : M unit :=
  match truthy (url options), data options with
  | Some u, _ =>
      let* r := _downloadSvgPath (Some u) force in assign_raw r
  | None, Some (DataString EmptyString) => ret tt
  | None, Some (DataString svg) =>
      let* r := _parseSvgPath (Text svg) force in assign_raw r
  | None, Some (DataObject d) =>
      let* r := _parseSvgPath (Synthesised (data_path d) (data_size d)) force in
      assign_raw r
  | None, None => ret tt
  end.

(** No source is configured: neither a URL nor inline data. *)
Definition no_source (options : IPolygonMask) : Prop :=
  truthy (url options) = None /\
  (data options = None \/ data options = Some (DataString EmptyString)).

(** Every path of the instance already carries the [path2d] that
    [_createPath2D] gives it. *)
Definition path2d_settled {E : Externals} (i : PolygonMaskInstance) : Prop :=
  match paths i with
  | Some ps => Forall (fun p => createPath2D_step (_scale i) (raw i) p = Ok p) ps
  | None => True
  end.

(** ** Equidistant sampling *)

(** The arc-length offset of the sample of index [i]: [stride * i] with
    [stride = totalLength / particleCount]. *)
Definition stride (w : World) (segments : list ISvgPath.t) : Q :=
  totalLength segments / particles_number_value (container w).

Definition sample_offset (w : World) (segments : list ISvgPath.t) (i : Z) : Q :=
  stride w segments * inject_Z i.

Definition add_length (tot : Q) (path : ISvgPath.t) : Q := tot + ISvgPath.length path.

(** ** Lifecycle and spawning *)

(** The mask is enabled with type [inline] and arrangement [onePerPoint] or
    [perPoint]. *)
Definition one_per_point_mode (w : World) : bool :=
  match polygon (container w) with
  | Some options =>
      enable options &&
      match type options with PolygonMaskType.inline => true | _ => false end &&
      match inline_arrangement options with
      | PolygonMaskInlineArrangement.onePerPoint
      | PolygonMaskInlineArrangement.perPoint => true
      | _ => false
      end
  | None => false
  end.

(** The vertices of the loaded polygon, none when nothing is loaded. *)
Definition loaded_vertices (w : World) : list ICoordinates :=
  match raw (this w) with
  | Some vertices => vertices
  | None => []
  end.

(** The world after the host was asked to add one particle at each of the
    given points, in order. *)
Definition spawned (points : list ICoordinates) (w : World) : World :=
  set_container (set_particles (particles (container w) ++ points) (container w)) w.

(** The mask is enabled and a polygon with at least one vertex is loaded. *)
Definition mask_ready (w : World) : Prop :=
  (exists options, polygon (container w) = Some options /\ enable options = true) /\
  (exists vertex vertices, raw (this w) = Some (vertex :: vertices)).

(** Coordinates with both fractions reduced, to compare results of runs. *)
Definition reduced (c : ICoordinates) : ICoordinates :=
  {| x := Qred (x c); y := Qred (y c) |}.

(** * Further definitions *)

(** ** Containment *)

(** The mask constrains positions: it is enabled with type [inside] or
    [outside]. *)
Definition constrains (w : World) : bool :=
  match polygon (container w) with
  | Some options =>
      enable options &&
      match type options with
      | PolygonMaskType.inside | PolygonMaskType.outside => true
      | _ => false
      end
  | None => false
  end.

(** The flag the loop of [_checkInsidePolygon] ends with at a point, and the
    answer the configured type makes of it. *)
Definition inside_flag (vertices : list ICoordinates) (p : ICoordinates) : bool :=
  fold_left (toggle (x p) (y p)) (closed_edges vertices) false.

Definition passes (options : IPolygonMask) (vertices : list ICoordinates)
           (p : ICoordinates) : bool :=
  masked (type options) (inside_flag vertices p).

(** ** Rejection sampling *)

(** The k-th point [_randomPoint] tries when the type is not [inline]: the
    draws number [2k] and [2k + 1] from the current one, scaled to the
    canvas. *)
Definition candidate {E : Externals} (w : World) (k : nat) : ICoordinates :=
  {| x := random (draws w + 2 * k) * width (canvas_size (container w));
     y := random (draws w + 2 * k + 1) * height (canvas_size (container w)) |}.

(** A host whose random source always answers one half. *)
Definition still_host : Externals :=
  {| calcClosestPtOnSegment := closestPtOnSegment;
     segmentBounce := reflectVelocity;
     parsePaths := square_anchors;
     getDistances := vectorDistances;
     parseFromString := fun _ => square_document;
     hasAddPath := true;
     random := fun _ => 1 # 2;
     server := fun _ => Some {| ok := true; text := "<svg/>"%string |} |}.

(** A world whose polygon is a square of side 200 around (400, 450). *)
Definition far_square : list ICoordinates :=
  [pt 300 350; pt 500 350; pt 500 550; pt 300 550].

Definition far_world (ty : PolygonMaskType.t) : World :=
  {| this := set_raw (Some far_square) square_instance;
     container := sample_container ty PolygonMaskInlineArrangement.onePerPoint;
     draws := 0; fetched := []; dispatched := [] |}.

(** ** The edge scan of [_polygonBounce], edge by edge *)

(** The closest point of the edge lies within the radius of the particle. *)
Definition within_radius {E : Externals} (pos : ICoordinates) (radius : Q)
           (edge : ICoordinates * ICoordinates) : bool :=
  dist_ltb (distance (getDistances pos
                        (calcClosestPtOnSegment (fst edge) (snd edge) pos)))
           radius.

(** The scan over a list of edges: it ends at the first edge within the
    radius, and otherwise carries on with what the edge leaves. *)
Fixpoint scan_edges {E : Externals} (pos : ICoordinates) (radius : Q)
         (v : ICoordinates) (edges : list (ICoordinates * ICoordinates))
         (acc : EdgeScan) : EdgeScan :=
  match edges with
  | [] => acc
  | edge :: rest =>
      if within_radius pos radius edge
      then Bounced (segmentBounce (fst edge) (snd edge) v)
      else scan_edges pos radius v rest (pass_edge pos acc edge)
  end.

(** The position a particle is put back to, next to [closest]. *)
Definition snap_back (particle : Particle) (closest : ICoordinates) : ICoordinates :=
  let pos := getPosition particle in
  let diameter := getRadius particle * 2 in
  {| x := x closest + diameter * (if geb (x pos) (x closest) then -1 else 1);
     y := y closest + diameter * (if geb (y pos) (y closest) then -1 else 1) |}.

(** The velocity the leash of type [inline] leaves. *)
Definition leashed (v : ICoordinates) : ICoordinates :=
  {| x := y v / 2 - x v; y := (y v / 2 - x v) / 2 - y v |}.

(** ** A parse that is not answered from the cache *)

(** The paths, the dimension and the offset a parse stores. *)
Definition fresh_paths (doc : Document) (svg : SVGSVGElement) : list ISvgPath.t :=
  map (fun path => {| ISvgPath.element := path;
                      ISvgPath.length := getTotalLength path;
                      ISvgPath.path2d := None |})
      (match svg_paths svg with
       | [] => doc_paths doc
       | found => found
       end).

Definition fresh_dimension (svg : SVGSVGElement) (scale : Q) : IDimension :=
  {| width := parseFloat_attr (attr_width svg) * scale;
     height := parseFloat_attr (attr_height svg) * scale |}.

Definition fresh_offset (options : IPolygonMask) (canvasSize : IDimension)
           (dimension : IDimension) : ICoordinates :=
  let relative := match position options with
                  | Some p => p
                  | None => {| x := 50; y := 50 |}
                  end in
  {| x := width canvasSize * x relative / 100 - width dimension / 2;
     y := height canvasSize * y relative / 100 - height dimension / 2 |}.

(** The instance after such a parse of a document with an [svg] element, and
    the points the parse returns. *)
Definition parsed_instance (options : IPolygonMask) (c : Container) (doc : Document)
           (svg : SVGSVGElement) (i : PolygonMaskInstance) : PolygonMaskInstance :=
  let dimension := fresh_dimension svg (_scale i) in
  set_offset (Some (fresh_offset options (canvas_size c) dimension))
    (set_dimension dimension (set_paths (Some (fresh_paths doc svg)) i)).

Definition parsed_points {E : Externals} (options : IPolygonMask) (c : Container)
           (doc : Document) (svg : SVGSVGElement) (i : PolygonMaskInstance)
  : list ICoordinates :=
  parsePaths (fresh_paths doc svg) (_scale i)
    (fresh_offset options (canvas_size c) (fresh_dimension svg (_scale i))).

(** The text [_initRawData] takes from inline data, if it takes any. *)
Definition data_text (d : option PolygonMaskData) : option SvgText :=
  match d with
  | Some (DataString EmptyString) => None
  | Some (DataString svg) => Some (Text svg)
  | Some (DataObject o) => Some (Synthesised (data_path o) (data_size o))
  | None => None
  end.

(** The world with one more URL in the log of fetches. *)
Definition fetching (u : string) (w : World) : World :=
  set_fetched (fetched w ++ [u]) w.

(** The configured source can be loaded: the URL is answered with success,
    or else there is inline data, and the text parses to the document [doc]
    whose first [svg] element is [svg]; [urls] are the URLs fetched on the
    way. *)
Definition loads {E : Externals} (options : IPolygonMask) (doc : Document)
           (svg : SVGSVGElement) (urls : list string) : Prop :=
  (exists others, doc_svgs doc = svg :: others) /\
  ((exists u req, truthy (url options) = Some u /\ server u = Some req /\
                  ok req = true /\ doc = parseFromString (Text (text req)) /\
                  urls = [u]) \/
   (exists xml, truthy (url options) = None /\ data_text (data options) = Some xml /\
                doc = parseFromString xml /\ urls = [])).

(** The world right after the source was loaded into an instance with
    nothing cached. *)
Definition loaded_world {E : Externals} (options : IPolygonMask) (doc : Document)
           (svg : SVGSVGElement) (urls : list string) (w : World) : World :=
  set_this
    (set_raw (Some (parsed_points options (container w) doc svg (this w)))
       (parsed_instance options (container w) doc svg (this w)))
    (set_fetched (fetched w ++ urls) w).

(** A host whose server cannot be reached, and a host whose parser finds no
    [svg] element. *)
Definition offline_host : Externals :=
  {| calcClosestPtOnSegment := closestPtOnSegment;
     segmentBounce := reflectVelocity;
     parsePaths := square_anchors;
     getDistances := vectorDistances;
     parseFromString := fun _ => square_document;
     hasAddPath := true;
     random := fun _ => 1 # 2;
     server := fun _ => None |}.

Definition blank_host : Externals :=
  {| calcClosestPtOnSegment := closestPtOnSegment;
     segmentBounce := reflectVelocity;
     parsePaths := square_anchors;
     getDistances := vectorDistances;
     parseFromString := fun _ => {| doc_svgs := []; doc_paths := [] |};
     hasAddPath := true;
     random := fun _ => 1 # 2;
     server := fun _ => Some {| ok := true; text := "<p/>"%string |} |}.

(** A world configured with inline data and no URL. *)
Definition inline_data_world : World :=
  {| this := new_PolygonMaskInstance;
     container :=
       {| polygon := Some {| enable := true; type := PolygonMaskType.inside;
                             url := None; data := Some (DataString "<p/>"%string);
                             position := None; scale := 1; move_radius := 10;
                             inline_arrangement := PolygonMaskInlineArrangement.onePerPoint;
                             draw_enable := true |};
          particles_number_value := 4;
          canvas_size := {| width := 800; height := 600 |};
          pixelRatio := 2;
          particles := [] |};
     draws := 0; fetched := []; dispatched := [] |}.

(** * [draw] and [resize] *)

(** What [draw] asks of its drawing context: the calls of the two drawing
    helpers of [./utils], in order, with their arguments.  The stroke they
    are given is [options.draw.stroke]; a call is recorded with the options
    the stroke is read from. *)
Inductive DrawCall : Type :=
| DrawPolygonMaskPath (path2d : Path2D) (stroke_of : IPolygonMask) (offset : ICoordinates)
| DrawPolygonMask (rawData : list ICoordinates) (stroke_of : IPolygonMask).

(** One iteration of the loop of [draw]; the context is the list of calls
    made on it, and [None] when there is no context. *)
Definition draw_path (options : IPolygonMask) (offset : option ICoordinates)
           (rawData : option (list ICoordinates))
           (context : option (list DrawCall)) (path : ISvgPath.t)
  : option (list DrawCall) :=
  match context with
  | None => None
  | Some calls =>
      match ISvgPath.path2d path, offset, rawData with
      | Some path2d, Some o, _ => Some (calls ++ [DrawPolygonMaskPath path2d options o])
      | _, _, Some r => Some (calls ++ [DrawPolygonMask r options])
      | _, _, None => Some calls
      end
  end.

(** [draw]: the context it leaves is returned. *)
Definition draw (context : option (list DrawCall)) : M (option (list DrawCall)) :=
  fun w =>
    match paths (this w) with
    | None | Some [] => (Ok context, w)
    | Some paths =>
        match polygon (container w) with
        | None => (Ok context, w)
        | Some options =>
            if negb (enable options) then (Ok context, w)
            else if negb (draw_enable options) then (Ok context, w)
            else
              let rawData := raw (this w) in
              (Ok (fold_left (draw_path options (offset (this w)) rawData) paths context), w)
        end
    end.

(** The timers of the window, as [resize] uses them: [setTimeout] hands out
    a new handle, greater than zero and than every handle before it, and
    [clearTimeout] removes the timer of a handle.  The callback of every
    timer set by the instance is the same and is not stored. *)
Record Timer : Type := { handle : nat; delay : nat }.

Record Window : Type := { timers : list Timer; last_handle : nat }.

Definition setTimeout (ms : nat) (win : Window) : nat * Window :=
  let h := S (last_handle win) in
  (h, {| timers := timers win ++ [ {| handle := h; delay := ms |} ]; last_handle := h |}).

Definition clearTimeout (h : nat) (win : Window) : Window :=
  {| timers := filter (fun t => negb (Nat.eqb (handle t) h)) (timers win);
     last_handle := last_handle win |}.

Definition set_redrawTimeout (t : option nat) (i : PolygonMaskInstance) :=
  {| dimension := dimension i; offset := offset i; paths := paths i; raw := raw i;
     redrawTimeout := t; _moveRadius := _moveRadius i; _scale := _scale i |}.

(** The window after [if (this.redrawTimeout) clearTimeout(this.redrawTimeout)];
    a handle of zero is falsy. *)
Definition clear_pending (i : PolygonMaskInstance) (win : Window) : Window :=
  match redrawTimeout i with
  | Some (S h) => clearTimeout (S h) win
  | _ => win
  end.

(** [resize]: the window it leaves is returned. *)
Definition resize (win : Window) : M Window :=
  fun w =>
    match polygon (container w) with
    | None => (Ok win, w)
    | Some options =>
        match enable options, type options with
        | false, _ => (Ok win, w)
        | true, PolygonMaskType.none => (Ok win, w)
        | true, _ =>
            let (h, win') := setTimeout 250%nat (clear_pending (this w) win) in
            (Ok win', set_this (set_redrawTimeout (Some h) (this w)) w)
        end
    end.

(** The callback [resize] arms: a forced load, then the host's redraw. *)
Definition resize_callback {E : Externals} (redraw : M unit) : M unit :=
  _initRawData (Some true) ;; redraw.

(** [resize] called [n] times in a row. *)
Fixpoint resizes (n : nat) (win : Window) : M Window :=
  match n with
  | O => ret win
  | S n' => let* win' := resize win in resizes n' win'
  end.

(** Every timer of the window has a handle the window has handed out. *)
Definition handles_known (win : Window) : Prop :=
  Forall (fun t => (handle t <= last_handle win)%nat) (timers win).

(** * The options class [ParticlesRepulse]
      ([src/interactions/particles/repulse/src/Options/Classes/ParticlesRepulse.ts]) *)

Module ParticlesRepulse.

(** The engine's [RangeValue]: a number, or a range with its bounds. *)
Inductive RangeValue : Type :=
| Number (value : Q)
| Range (min max : Q).

Section Class.

(** The state the base class [ValueWithRandom] keeps, the part of the data
    it reads, its [load], and the engine's [setRangeValue], whose code is not
    in the file. *)
Variables Base BaseData : Type.
Variable ValueWithRandom_load : option BaseData -> Base -> Base.
Variable setRangeValue : RangeValue -> RangeValue.

(** The data handed to [load]: every field may be absent. *)
Record Data : Type := {
  data_base : BaseData;
  data_enabled : option bool;
  data_distance : option RangeValue;
  data_duration : option RangeValue;
  data_factor : option RangeValue;
  data_speed : option RangeValue;
}.

Record t : Type := {
  base : Base;
  enabled : bool;
  distance : RangeValue;
  duration : RangeValue;
  factor : RangeValue;
  speed : RangeValue;
}.

(** The constructor, after the constructor of the base class. *)
Definition create (b : Base) : t :=
  {| base := b; enabled := false; distance := Number 1; duration := Number 1;
     factor := Number 1; speed := Number 1 |}.

Definition load (data : option Data) (s : t) : t :=
  let b := ValueWithRandom_load (option_map data_base data) (base s) in
  match data with
  | None =>
      {| base := b; enabled := enabled s; distance := distance s;
         duration := duration s; factor := factor s; speed := speed s |}
  | Some d =>
      {| base := b;
         enabled := match data_enabled d with Some v => v | None => enabled s end;
         distance := match data_distance d with
                     | Some v => setRangeValue v
                     | None => distance s
                     end;
         duration := match data_duration d with
                     | Some v => setRangeValue v
                     | None => duration s
                     end;
         factor := match data_factor d with
                   | Some v => setRangeValue v
                   | None => factor s
                   end;
         speed := match data_speed d with
                  | Some v => setRangeValue v
                  | None => speed s
                  end |}
  end.

(** The fields of the class itself, without those of the base class. *)
Definition own (s : t) : bool * RangeValue * RangeValue * RangeValue * RangeValue :=
  (enabled s, distance s, duration s, factor s, speed s).

(** Two data objects laid over each other: a field of the later one wins
    where it is present. *)
Definition later {A} (first second : option A) : option A :=
  match second with
  | Some v => Some v
  | None => first
  end.

Definition overlay (first second : Data) : Data :=
  {| data_base := data_base second;
     data_enabled := later (data_enabled first) (data_enabled second);
     data_distance := later (data_distance first) (data_distance second);
     data_duration := later (data_duration first) (data_duration second);
     data_factor := later (data_factor first) (data_factor second);
     data_speed := later (data_speed first) (data_speed second) |}.

End Class.

End ParticlesRepulse.
(** * Properties *)

(** ** Comparisons *)

Lemma ltb_lt (a b : Q) : ltb a b = true <-> a < b.
Proof.
  unfold ltb. rewrite negb_true_iff.
  split; intro H.
  - apply Qnot_le_lt. intro Hle. apply Qle_bool_iff in Hle. congruence.
  - destruct (Qle_bool b a) eqn:Hb; [|reflexivity].
    apply Qle_bool_iff in Hb. exfalso. apply (Qlt_not_le _ _ H Hb).
Qed.

Lemma ltb_ge (a b : Q) : ltb a b = false <-> b <= a.
Proof.
  unfold ltb. rewrite negb_false_iff. apply Qle_bool_iff.
Qed.

Lemma gtb_gt (a b : Q) : gtb a b = true <-> b < a.
Proof. apply ltb_lt. Qed.

Lemma gtb_le (a b : Q) : gtb a b = false <-> a <= b.
Proof. apply ltb_ge. Qed.

Lemma leb_le (a b : Q) : leb a b = true <-> a <= b.
Proof. apply Qle_bool_iff. Qed.


Section RayCasting.

Context {E : Externals}.

Lemma intersect_crosses_ray (pi pj : ICoordinates) (x0 y0 : Q) :
  intersect pi pj x0 y0 = true <-> crosses_ray (pi, pj) x0 y0.
Proof.
  unfold intersect, crosses_ray, crossing_x.
  destruct (gtb (y pi) y0) eqn:Hi; destruct (gtb (y pj) y0) eqn:Hj; simpl;
    try apply gtb_gt in Hi; try apply gtb_le in Hi;
    try apply gtb_gt in Hj; try apply gtb_le in Hj;
    rewrite ?ltb_lt.
  - split; [discriminate|].
    intros [[[_ H]|[_ H]] _]; exfalso;
      [apply (Qlt_not_le _ _ Hj H) | apply (Qlt_not_le _ _ Hi H)].
  - split; [intro H; split; [left; split; assumption | exact H] | intros [_ H]; exact H].
  - split; [intro H; split; [right; split; assumption | exact H] | intros [_ H]; exact H].
  - split; [discriminate|].
    intros [[[H _]|[H _]] _]; exfalso;
      [apply (Qlt_not_le _ _ H Hi) | apply (Qlt_not_le _ _ H Hj)].
Qed.

Lemma checkInside_loop_edges (raw : list ICoordinates) (x0 y0 : Q) :
  forall rest pre prev j inside,
    raw = pre ++ rest ->
    nth_error raw j = Some prev ->
    checkInside_loop raw x0 y0 (List.length rest) (List.length pre) j inside
    = Ok (fold_left (toggle x0 y0) (edges_from prev rest) inside).
Proof.
  induction rest as [|p rest IH]; intros pre prev j inside Hraw Hj.
  - reflexivity.
  - simpl.
    assert (Hi : nth_error raw (List.length pre) = Some p).
    { rewrite Hraw, nth_error_app2 by lia. now rewrite Nat.sub_diag. }
    rewrite Hi, Hj.
    replace (S (List.length pre)) with (List.length (pre ++ [p]))
      by (rewrite length_app; simpl; lia).
    rewrite (IH (pre ++ [p]) p (List.length pre)).
    + reflexivity.
    + now rewrite <- app_assoc.
    + exact Hi.
Qed.

Lemma nth_error_last (l : list ICoordinates) (d : ICoordinates) :
  l <> [] -> nth_error l (List.length l - 1) = Some (last l d).
Proof.
  intro Hne.
  pose proof (app_removelast_last d Hne) as Hl.
  remember (removelast l) as front eqn:Hfront.
  remember (last l d) as z eqn:Hz.
  clear Hfront Hz. subst l.
  rewrite length_app. simpl.
  rewrite nth_error_app2 by lia.
  replace (List.length front + 1 - 1 - List.length front)%nat with 0%nat by lia.
  reflexivity.
Qed.

Lemma fold_toggle_xorb (x0 y0 : Q) edges :
  forall inside,
    fold_left (toggle x0 y0) edges inside
    = xorb inside (fold_left (toggle x0 y0) edges false).
Proof.
  induction edges as [|edge edges IH]; intro inside; simpl.
  - now rewrite xorb_false_r.
  - rewrite (IH (toggle x0 y0 inside edge)), (IH (toggle x0 y0 false edge)).
    unfold toggle. destruct (intersect _ _ _ _), inside; simpl;
      now destruct (fold_left _ _ _).
Qed.

Lemma fold_toggle_EvenOdd (x0 y0 : Q) edges :
  EvenOdd x0 y0 edges (fold_left (toggle x0 y0) edges false).
Proof.
  induction edges as [|[pi pj] edges IH]; simpl.
  - constructor.
  - rewrite fold_toggle_xorb.
    replace (toggle x0 y0 false (pi, pj)) with (intersect pi pj x0 y0)
      by (unfold toggle; simpl; now destruct (intersect pi pj x0 y0)).
    destruct (intersect pi pj x0 y0) eqn:Hx; simpl.
    + apply EvenOdd_toggle; [now apply intersect_crosses_ray | exact IH].
    + apply EvenOdd_keep; [|exact IH].
      intro Hc. apply intersect_crosses_ray in Hc. congruence.
Qed.

(** The flag the specification describes is unique. *)
Lemma EvenOdd_functional (x0 y0 : Q) edges b1 b2 :
  EvenOdd x0 y0 edges b1 -> EvenOdd x0 y0 edges b2 -> b1 = b2.
Proof.
  intro H1. revert b2.
  induction H1 as [|edge edges flag Hc _ IH|edge edges flag Hc _ IH];
    intros b2 H2; inversion H2; subst; try reflexivity; try contradiction.
  - f_equal. now apply IH.
  - now apply IH.
Qed.

(** The loop of [_checkInsidePolygon], run over the whole polygon. *)
Lemma checkInside_loop_closed (raw : list ICoordinates) (x0 y0 : Q) :
  checkInside_loop raw x0 y0 (List.length raw) 0 (List.length raw - 1) false
  = Ok (fold_left (toggle x0 y0) (closed_edges raw) false).
Proof.
  destruct raw as [|p0 rest] eqn:Hraw; [reflexivity|].
  rewrite <- Hraw.
  assert (Hne : raw <> []) by (rewrite Hraw; discriminate).
  replace (closed_edges raw) with (edges_from (last raw p0) raw)
    by (rewrite Hraw; reflexivity).
  apply (checkInside_loop_edges raw x0 y0 raw [] (last raw p0)).
  - reflexivity.
  - now apply nth_error_last.
Qed.

Lemma checkInsidePolygon_at (w : World) options vertices position :
  polygon (container w) = Some options ->
  enable options = true ->
  type options = PolygonMaskType.inside \/ type options = PolygonMaskType.outside ->
  raw (this w) = Some vertices ->
  _checkInsidePolygon position w
  = (Ok (masked (type options)
           (fold_left (toggle (x (test_point w position)) (y (test_point w position)))
              (closed_edges vertices) false)),
     after_test w position).
Proof.
  intros Hopt Hen Hty Hraw.
  unfold _checkInsidePolygon, bind, get. rewrite Hopt, Hen.
  destruct Hty as [Hty|Hty]; rewrite Hty; rewrite Hraw;
    destruct position as [p|]; unfold ret, lift, getRandom; simpl;
      rewrite checkInside_loop_closed; reflexivity.
Qed.

(** C1.  With the mask enabled, of type [inside], and a polygon loaded,
    [_checkInsidePolygon] is even-odd ray casting: it returns the flag that
    starts [false] and is toggled by exactly those edges [(p_i, p_j)] of the
    closed polygon that have one endpoint strictly above the test y, the other
    not, and their interpolated x at that y greater than the test x; the world
    is left as it was.  On the square (0,0), (10,0), (10,10), (0,10) it answers
    [true] at (5,5) and [false] at (15,15) and at (-1,-1). *)
Theorem checkInsidePolygon_even_odd (w : World) options vertices :
  polygon (container w) = Some options ->
  enable options = true ->
  type options = PolygonMaskType.inside ->
  raw (this w) = Some vertices ->
  (forall p, exists flag,
      EvenOdd (x p) (y p) (closed_edges vertices) flag /\
      _checkInsidePolygon (Some p) w = (Ok flag, w)) /\
  (vertices = square ->
   _checkInsidePolygon (Some (pt 5 5)) w = (Ok true, w) /\
   _checkInsidePolygon (Some (pt 15 15)) w = (Ok false, w) /\
   _checkInsidePolygon (Some (pt (-1) (-1))) w = (Ok false, w)).
Proof.
  intros Hopt Hen Hty Hraw.
  assert (Hat : forall p,
             _checkInsidePolygon (Some p) w
             = (Ok (fold_left (toggle (x p) (y p)) (closed_edges vertices) false), w)).
  { intro p.
    rewrite (checkInsidePolygon_at w options vertices (Some p) Hopt Hen (or_introl Hty) Hraw).
    rewrite Hty. reflexivity. }
  split.
  - intro p. eexists. split; [apply fold_toggle_EvenOdd | apply Hat].
  - intros ->. rewrite !Hat. repeat split.
Qed.

(** C2.  With the mask enabled and a polygon loaded, the containment check
    under type [inside] and the one under type [outside] are complements at
    every test point: the first returns the even-odd flag of the point, the
    second its negation. *)
Theorem inside_outside_complement (w : World) options vertices position :
  polygon (container w) = Some options ->
  enable options = true ->
  raw (this w) = Some vertices ->
  exists flag,
    EvenOdd (x (test_point w position)) (y (test_point w position))
      (closed_edges vertices) flag /\
    fst (_checkInsidePolygon position (with_type PolygonMaskType.inside w)) = Ok flag /\
    fst (_checkInsidePolygon position (with_type PolygonMaskType.outside w))
    = Ok (negb flag).
Proof.
  intros Hopt Hen Hraw.
  eexists. split; [apply fold_toggle_EvenOdd|].
  split.
  - rewrite (checkInsidePolygon_at (with_type PolygonMaskType.inside w)
               (set_type PolygonMaskType.inside options) vertices position).
    + reflexivity.
    + unfold with_type. simpl. now rewrite Hopt.
    + exact Hen.
    + left. reflexivity.
    + exact Hraw.
  - rewrite (checkInsidePolygon_at (with_type PolygonMaskType.outside w)
               (set_type PolygonMaskType.outside options) vertices position).
    + reflexivity.
    + unfold with_type. simpl. now rewrite Hopt.
    + exact Hen.
    + right. reflexivity.
    + exact Hraw.
Qed.

End RayCasting.

Lemma checkInsidePolygon_even_odd_witness :
  (forall p, exists flag,
      EvenOdd (x p) (y p) (closed_edges square) flag /\
      @_checkInsidePolygon sample_host (Some p)
        (square_world PolygonMaskType.inside PolygonMaskInlineArrangement.onePerPoint)
      = (Ok flag,
         square_world PolygonMaskType.inside PolygonMaskInlineArrangement.onePerPoint)) /\
  (square = square ->
   @_checkInsidePolygon sample_host (Some (pt 5 5))
     (square_world PolygonMaskType.inside PolygonMaskInlineArrangement.onePerPoint)
   = (Ok true, square_world PolygonMaskType.inside PolygonMaskInlineArrangement.onePerPoint) /\
   @_checkInsidePolygon sample_host (Some (pt 15 15))
     (square_world PolygonMaskType.inside PolygonMaskInlineArrangement.onePerPoint)
   = (Ok false, square_world PolygonMaskType.inside PolygonMaskInlineArrangement.onePerPoint) /\
   @_checkInsidePolygon sample_host (Some (pt (-1) (-1)))
     (square_world PolygonMaskType.inside PolygonMaskInlineArrangement.onePerPoint)
   = (Ok false, square_world PolygonMaskType.inside PolygonMaskInlineArrangement.onePerPoint)).
Proof.
  apply (@checkInsidePolygon_even_odd sample_host
           (square_world PolygonMaskType.inside PolygonMaskInlineArrangement.onePerPoint)
           (sample_options PolygonMaskType.inside PolygonMaskInlineArrangement.onePerPoint)
           square); reflexivity.
Defined.

Lemma inside_outside_complement_witness :
  exists flag,
    EvenOdd (x (pt 5 5)) (y (pt 5 5)) (closed_edges square) flag /\
    fst (@_checkInsidePolygon sample_host (Some (pt 5 5))
           (with_type PolygonMaskType.inside
              (square_world PolygonMaskType.inside PolygonMaskInlineArrangement.onePerPoint)))
    = Ok flag /\
    fst (@_checkInsidePolygon sample_host (Some (pt 5 5))
           (with_type PolygonMaskType.outside
              (square_world PolygonMaskType.inside PolygonMaskInlineArrangement.onePerPoint)))
    = Ok (negb flag).
Proof.
  apply (@inside_outside_complement sample_host
           (square_world PolygonMaskType.inside PolygonMaskInlineArrangement.onePerPoint)
           (sample_options PolygonMaskType.inside PolygonMaskInlineArrangement.onePerPoint)
           square (Some (pt 5 5))); reflexivity.
Defined.

(** ** The bounce on the polygon *)

Section Bounce.

Context {E : Externals}.

Lemma polygonBounce_loop_edges (raw : list ICoordinates) (pos : ICoordinates)
      (radius : Q) (v : ICoordinates) :
  forall rest pre prev j closest dx0 dy0,
    raw = pre ++ rest ->
    nth_error raw j = Some prev ->
    (forall edge, In edge (edges_from prev rest) ->
       dist_ltb (distance (getDistances pos
                             (calcClosestPtOnSegment (fst edge) (snd edge) pos)))
                radius = false) ->
    polygonBounce_loop raw pos radius v (List.length rest) (List.length pre) j
      closest dx0 dy0
    = Ok (fold_left (pass_edge pos) (edges_from prev rest) (Passed closest dx0 dy0)).
Proof.
  induction rest as [|p rest IH]; intros pre prev j closest dx0 dy0 Hraw Hj Hfar.
  - reflexivity.
  - simpl.
    assert (Hi : nth_error raw (List.length pre) = Some p).
    { rewrite Hraw, nth_error_app2 by lia. now rewrite Nat.sub_diag. }
    rewrite Hi, Hj.
    pose proof (Hfar (p, prev) (or_introl eq_refl)) as Hp.
    cbn [fst snd] in Hp. rewrite Hp.
    replace (S (List.length pre)) with (List.length (pre ++ [p]))
      by (rewrite length_app; simpl; lia).
    rewrite (IH (pre ++ [p]) p (List.length pre)).
    + reflexivity.
    + now rewrite <- app_assoc.
    + exact Hi.
    + intros edge Hin. apply Hfar. right. exact Hin.
Qed.

Lemma polygonBounce_loop_closed (vertices : list ICoordinates) (pos : ICoordinates)
      (radius : Q) (v : ICoordinates) :
  no_edge_within vertices pos radius ->
  polygonBounce_loop vertices pos radius v (List.length vertices) 0
    (List.length vertices - 1) None None None
  = Ok (fold_left (pass_edge pos) (closed_edges vertices) (Passed None None None)).
Proof.
  intro Hfar.
  destruct vertices as [|p0 rest] eqn:Hv; [reflexivity|].
  rewrite <- Hv in *.
  assert (Hne : vertices <> []) by (rewrite Hv; discriminate).
  assert (Hce : closed_edges vertices = edges_from (last vertices p0) vertices)
    by (rewrite Hv; reflexivity).
  rewrite Hce.
  apply (polygonBounce_loop_edges vertices pos radius v vertices [] (last vertices p0)).
  - reflexivity.
  - now apply nth_error_last.
  - intros edge Hin. apply Hfar. now rewrite Hce.
Qed.

(** C3, as the code has it.  In [particleBounce] towards the top, with the
    mask enabled, of type [inside] or [outside], and a polygon loaded: when
    no edge lies within the radius of the particle and the particle fails the
    containment test of the mask, the position of the particle is set, on
    each axis, one diameter (twice the radius) away from the point [closest]
    the scan of the edges ends with, which is the closest point of the last
    edge; the displacement is negative on an axis where the particle is at or
    beyond that point and positive otherwise; the call returns [true] and
    leaves the instance and the container as they were.  Nothing is stated of
    the velocity. *)
Theorem polygonBounce_snaps_back (w : World) options vertices front pi pj particle :
  polygon (container w) = Some options ->
  enable options = true ->
  type options = PolygonMaskType.inside \/ type options = PolygonMaskType.outside ->
  raw (this w) = Some vertices ->
  closed_edges vertices = front ++ [(pi, pj)] ->
  no_edge_within vertices (getPosition particle) (getRadius particle) ->
  fst (_checkInsidePolygon (Some (getPosition particle)) w) = Ok false ->
  let pos := getPosition particle in
  let closest := calcClosestPtOnSegment pi pj pos in
  let diameter := getRadius particle * 2 in
  exists particle',
    particleBounce particle OutModeDirection.top w = (Ok (true, particle'), w) /\
    particle_position particle'
    = {| x := x closest + diameter * (if geb (x pos) (x closest) then -1 else 1);
         y := y closest + diameter * (if geb (y pos) (y closest) then -1 else 1) |}.
Proof.
  intros Hopt Hen Hty Hraw Hlast Hfar Hout pos closest diameter.
  exists (set_position
            {| x := x closest + diameter * (if geb (x pos) (x closest) then -1 else 1);
               y := y closest + diameter * (if geb (y pos) (y closest) then -1 else 1) |}
            particle).
  split; [|reflexivity].
  pose proof (checkInsidePolygon_at w options vertices (Some pos) Hopt Hen Hty Hraw)
    as Hcheck.
  fold pos in Hout. rewrite Hcheck in Hout. simpl in Hout.
  unfold particleBounce, _polygonBounce, bind, get.
  rewrite Hraw, Hopt, Hen. simpl negb. cbv iota.
  assert (Hscan :
            lift (polygonBounce_loop vertices pos (getRadius particle) (velocity particle)
                    (List.length vertices) 0 (List.length vertices - 1) None None None) w
            = (Ok (Passed (Some closest)
                     (Some (dx (getDistances pos closest)))
                     (Some (dy (getDistances pos closest)))), w)).
  { unfold lift. rewrite (polygonBounce_loop_closed _ _ _ _ Hfar), Hlast.
    rewrite fold_left_app. reflexivity. }
  fold pos.
  injection Hout as Hout.
  destruct Hty as [Hty|Hty]; rewrite Hty; cbn [negb]; cbv beta iota;
    rewrite Hscan; cbv beta iota; rewrite Hcheck; cbn [test_point after_test];
    rewrite Hout; reflexivity.
Qed.

End Bounce.

Lemma polygonBounce_snaps_back_witness :
  exists particle',
    @particleBounce sample_host (sample_particle (pt 20 5) 1) OutModeDirection.top
      (square_world PolygonMaskType.inside PolygonMaskInlineArrangement.onePerPoint)
    = (Ok (true, particle'),
       square_world PolygonMaskType.inside PolygonMaskInlineArrangement.onePerPoint) /\
    particle_position particle' = pt (10 + 1 * 2 * -1) (10 + 1 * 2 * 1).
Proof.
  apply (@polygonBounce_snaps_back sample_host
           (square_world PolygonMaskType.inside PolygonMaskInlineArrangement.onePerPoint)
           (sample_options PolygonMaskType.inside PolygonMaskInlineArrangement.onePerPoint)
           square
           [(pt 0 0, pt 0 10); (pt 10 0, pt 0 0); (pt 10 10, pt 10 0)]
           (pt 0 10) (pt 10 10) (sample_particle (pt 20 5) 1)).
  - reflexivity.
  - reflexivity.
  - left; reflexivity.
  - reflexivity.
  - reflexivity.
  - intros edge Hin. simpl in Hin.
    destruct Hin as [<-|[<-|[<-|[<-|[]]]]]; reflexivity.
  - reflexivity.
Defined.

(** C3, as stated, fails.  On the square with type [inside], a particle of
    radius 1 at (20,5) has no edge within its radius and is outside the mask;
    the bounce moves it to (8,12), which is not twice its diameter away, on
    both axes, from the closest point of any edge. *)
Lemma polygonBounce_not_twice_diameter :
  let particle := sample_particle (pt 20 5) 1 in
  let w := square_world PolygonMaskType.inside PolygonMaskInlineArrangement.onePerPoint in
  @no_edge_within sample_host square (getPosition particle) (getRadius particle) /\
  fst (@_checkInsidePolygon sample_host (Some (getPosition particle)) w) = Ok false /\
  ~ (exists particle' edge sx sy,
        fst (@particleBounce sample_host particle OutModeDirection.top w)
        = Ok (true, particle') /\
        In edge (closed_edges square) /\
        (sx == 1 \/ sx == -1) /\ (sy == 1 \/ sy == -1) /\
        x (particle_position particle')
        == x (closestPtOnSegment (fst edge) (snd edge) (getPosition particle))
           + 2 * (getRadius particle * 2) * sx /\
        y (particle_position particle')
        == y (closestPtOnSegment (fst edge) (snd edge) (getPosition particle))
           + 2 * (getRadius particle * 2) * sy).
Proof.
  intros particle w. split; [|split].
  - intros edge Hin. simpl in Hin.
    destruct Hin as [<-|[<-|[<-|[<-|[]]]]]; reflexivity.
  - reflexivity.
  - intros (particle' & edge & sx & sy & Hres & Hin & Hsx & Hsy & Hx & _).
    assert (Hp : x (particle_position particle') = 10 + 1 * 2 * -1).
    { vm_compute in Hres. injection Hres as <-. reflexivity. }
    rewrite Hp in Hx. clear Hres Hp.
    simpl in Hin.
    destruct Hin as [<-|[<-|[<-|[<-|[]]]]];
      destruct Hsx as [Hsx|Hsx]; rewrite Hsx in Hx; vm_compute in Hx; discriminate.
Qed.

(** ** Loading and its cache *)

Lemma set_this_eta (w : World) : set_this (this w) w = w.
Proof. now destruct w. Qed.

Lemma set_raw_eta (i : PolygonMaskInstance) : set_raw (raw i) i = i.
Proof. now destruct i. Qed.

Lemma set_paths_eta (i : PolygonMaskInstance) ps :
  paths i = ps -> set_paths ps i = i.
Proof. intros <-. now destruct i. Qed.

Section Loading.

Context {E : Externals}.

Lemma initRawData_source (force : option bool) (w : World) :
  _initRawData force w
  = match polygon (container w) with
    | None => (Ok tt, w)
    | Some options =>
        (load_source options force ;; _createPath2D ;;
         dispatchEvent "polygonMaskLoaded") w
    end.
Proof.
  unfold _initRawData, bind at 1, get.
  destruct (polygon (container w)); reflexivity.
Qed.

(** With paths set and no force, [_parseSvgPath] answers from the cache. *)
Lemma parseSvgPath_cached (w : World) xml force cached :
  forceDownload force = false ->
  paths (this w) = Some cached ->
  _parseSvgPath xml force w = (Ok (raw (this w)), w).
Proof.
  intros Hf Hp. unfold _parseSvgPath, bind, get. now rewrite Hp, Hf.
Qed.

(** With paths set and no force, [_downloadSvgPath] answers from the cache
    and fetches nothing. *)
Lemma downloadSvgPath_cached (w : World) svgUrl force cached options :
  forceDownload force = false ->
  paths (this w) = Some cached ->
  polygon (container w) = Some options ->
  _downloadSvgPath svgUrl force w = (Ok (raw (this w)), w).
Proof.
  intros Hf Hp Ho. unfold _downloadSvgPath, bind, get. rewrite Ho, Hp, Hf.
  now destruct (truthy _).
Qed.

Lemma assign_raw_same (w : World) : assign_raw (raw (this w)) w = (Ok tt, w).
Proof.
  unfold assign_raw. now rewrite set_raw_eta, set_this_eta.
Qed.

(** With the cache filled, or nothing to load from, the loading step changes
    nothing. *)
Lemma load_source_cached (w : World) options force :
  forceDownload force = false ->
  polygon (container w) = Some options ->
  paths (this w) <> None \/ no_source options ->
  load_source options force w = (Ok tt, w).
Proof.
  intros Hf Ho [Hp|[Hu Hd]]; unfold load_source.
  - destruct (paths (this w)) as [cached|] eqn:Hc; [|contradiction].
    destruct (truthy (url options)) as [u|].
    + unfold bind. rewrite (downloadSvgPath_cached w _ force cached options Hf Hc Ho).
      apply assign_raw_same.
    + destruct (data options) as [[[|c svg]|d]|]; try reflexivity;
        unfold bind; rewrite (parseSvgPath_cached w _ force cached Hf Hc);
        apply assign_raw_same.
  - rewrite Hu. destruct Hd as [-> | ->]; reflexivity.
Qed.

(** What [_parseSvgPath] leaves when it succeeds. *)
Lemma parseSvgPath_leaves (w w' : World) xml force r :
  polygon (container w) <> None ->
  _parseSvgPath xml force w = (Ok r, w') ->
  container w' = container w /\ fetched w' = fetched w /\ paths (this w') <> None.
Proof.
  intros Ho. unfold _parseSvgPath, bind, get, put, ret, throw.
  destruct (polygon (container w)) as [options|]; [clear Ho|contradiction].
  destruct (paths (this w)) as [cached|] eqn:Hc; destruct (forceDownload force);
    try (destruct (doc_svgs (parseFromString xml)); [discriminate|]);
    intro H; injection H as _ <-; simpl; rewrite ?Hc; repeat split; discriminate.
Qed.

(** What [_downloadSvgPath] leaves when it succeeds on a URL. *)
Lemma downloadSvgPath_leaves (w w' : World) u force r options :
  forceDownload force = false ->
  polygon (container w) = Some options ->
  truthy (Some u) = Some u ->
  _downloadSvgPath (Some u) force w = (Ok r, w') ->
  container w' = container w /\ paths (this w') <> None.
Proof.
  intros Hf Ho Hu. destruct u as [|c u']; [discriminate|]. clear Hu.
  unfold _downloadSvgPath, bind at 1, get. rewrite Ho. simpl.
  destruct (paths (this w)) as [cached|] eqn:Hc.
  - rewrite Hf. intro H. injection H as _ <-. rewrite Hc. split; [reflexivity|discriminate].
  - unfold bind, fetch.
    destruct (server (String c u')) as [req|]; [|discriminate].
    destruct (ok req); simpl; [|discriminate].
    intro H. apply parseSvgPath_leaves in H.
    + destruct H as (Hcont & _ & Hp). split; [exact Hcont | exact Hp].
    + simpl. rewrite Ho. discriminate.
Qed.

Lemma assign_raw_leaves (w : World) r :
  assign_raw r w = (Ok tt, set_this (set_raw r (this w)) w).
Proof. reflexivity. Qed.

(** After the loading step the cache is filled, unless there was nothing to
    load from. *)
Lemma load_source_leaves (w w' : World) options force :
  forceDownload force = false ->
  polygon (container w) = Some options ->
  load_source options force w = (Ok tt, w') ->
  container w' = container w /\ (paths (this w') <> None \/ no_source options).
Proof.
  intros Hf Ho. unfold load_source.
  destruct (truthy (url options)) as [u|] eqn:Hu.
  - unfold bind.
    destruct (_downloadSvgPath (Some u) force w) as [[r| |] w1] eqn:Hd; try discriminate.
    assert (Htu : truthy (Some u) = Some u).
    { destruct (url options) as [[|c s]|]; simpl in Hu; try discriminate.
      now injection Hu as <-. }
    destruct (downloadSvgPath_leaves w w1 u force r options Hf Ho Htu Hd) as [Hc Hp].
    rewrite assign_raw_leaves. intro H. injection H as <-. simpl. split; [exact Hc|].
    left. exact Hp.
  - assert (Hpolygon : polygon (container w) <> None) by (rewrite Ho; discriminate).
    destruct (data options) as [[[|c svg]|d]|] eqn:Hdata.
    + intro H. injection H as <-. split; [reflexivity|]. right. split; [exact Hu|].
      right. exact Hdata.
    + unfold bind.
      destruct (_parseSvgPath _ force w) as [[r| |] w1] eqn:Hd; try discriminate.
      destruct (parseSvgPath_leaves w w1 _ force r Hpolygon Hd) as (Hc & _ & Hp).
      rewrite assign_raw_leaves. intro H. injection H as <-. simpl.
      split; [exact Hc | left; exact Hp].
    + unfold bind.
      destruct (_parseSvgPath _ force w) as [[r| |] w1] eqn:Hd; try discriminate.
      destruct (parseSvgPath_leaves w w1 _ force r Hpolygon Hd) as (Hc & _ & Hp).
      rewrite assign_raw_leaves. intro H. injection H as <-. simpl.
      split; [exact Hc | left; exact Hp].
    + intro H. injection H as <-. split; [reflexivity|]. right. split; [exact Hu|].
      left. exact Hdata.
Qed.

(** *** [_createPath2D] *)

Lemma createPath2D_step_settles (scale : Q) raw path path' :
  createPath2D_step scale raw path = Ok path' ->
  createPath2D_step scale raw path' = Ok path'.
Proof.
  unfold createPath2D_step.
  destruct (truthy (attr_d (ISvgPath.element path))) as [d|] eqn:Hd.
  - destruct hasAddPath eqn:Hadd.
    + intro H. injection H as <-. simpl. rewrite Hd. reflexivity.
    + destruct raw as [[|first rest]|]; try discriminate;
        intro H; injection H as <-; simpl; rewrite Hd; reflexivity.
  - destruct raw as [[|first rest]|]; try discriminate;
      intro H; injection H as <-; simpl; rewrite Hd; reflexivity.
Qed.

Lemma createPath2D_loop_settles (scale : Q) raw :
  forall todo done out,
    createPath2D_loop scale raw done todo = (Ok tt, out) ->
    exists out', out = done ++ out' /\
                 List.length out' = List.length todo /\
                 Forall (fun p => createPath2D_step scale raw p = Ok p) out'.
Proof.
  induction todo as [|path rest IH]; intros done out; simpl.
  - intro H. injection H as <-. exists []. rewrite app_nil_r. repeat split. constructor.
  - destruct (createPath2D_step scale raw path) as [path'| |] eqn:Hstep; try discriminate.
    intro H. destruct (IH _ _ H) as (out' & -> & Hlen & Hall).
    exists (path' :: out'). rewrite <- app_assoc. simpl. repeat split.
    + now rewrite Hlen.
    + constructor; [|exact Hall]. now apply (createPath2D_step_settles scale raw path).
Qed.

Lemma createPath2D_loop_settled (scale : Q) raw :
  forall todo done,
    Forall (fun p => createPath2D_step scale raw p = Ok p) todo ->
    createPath2D_loop scale raw done todo = (Ok tt, done ++ todo).
Proof.
  induction todo as [|path rest IH]; intros done Hall; simpl.
  - now rewrite app_nil_r.
  - inversion Hall as [|? ? Hp Hrest]; subst. rewrite Hp.
    rewrite (IH _ Hrest), <- app_assoc. reflexivity.
Qed.

(** A settled instance is left alone by [_createPath2D]. *)
Lemma createPath2D_settled (w : World) :
  path2d_settled (this w) -> _createPath2D w = (Ok tt, w).
Proof.
  unfold path2d_settled, _createPath2D, bind, get.
  destruct (polygon (container w)); [|reflexivity].
  destruct (paths (this w)) as [[|p ps]|] eqn:Hp; try reflexivity.
  intro Hall. rewrite (createPath2D_loop_settled _ _ _ [] Hall). simpl.
  unfold put, lift. rewrite <- Hp, (set_paths_eta _ _ eq_refl), set_this_eta. reflexivity.
Qed.

(** What [_createPath2D] leaves when it succeeds. *)
Lemma createPath2D_leaves (w w' : World) options :
  polygon (container w) = Some options ->
  _createPath2D w = (Ok tt, w') ->
  container w' = container w /\ fetched w' = fetched w /\
  raw (this w') = raw (this w) /\
  (paths (this w) <> None -> paths (this w') <> None) /\
  path2d_settled (this w').
Proof.
  intro Ho. unfold _createPath2D, bind, get. rewrite Ho.
  destruct (paths (this w)) as [[|p ps]|] eqn:Hp.
  - intro H. injection H as <-. rewrite Hp.
    repeat split; [discriminate|].
    unfold path2d_settled. rewrite Hp. constructor.
  - destruct (createPath2D_loop _ _ [] (p :: ps)) as [r out] eqn:Hloop.
    unfold put, lift. intro H. injection H as -> <-.
    destruct (createPath2D_loop_settles _ _ _ _ _ Hloop) as (out' & -> & Hlen & Hall).
    simpl. repeat split; [discriminate|].
    unfold path2d_settled. simpl. exact Hall.
  - intro H. injection H as <-. rewrite Hp.
    repeat split; [intro Hc; now contradiction Hc|].
    unfold path2d_settled. now rewrite Hp.
Qed.

(** C4.  Loading answers from its cache.  With paths set and no force,
    [_parseSvgPath] and (the mask being configured) [_downloadSvgPath] return
    the raw points stored in the instance and leave the whole world as it
    was: nothing is fetched, nothing is parsed again.  And when a load
    without force has succeeded, a second load without force succeeds too,
    fetches nothing, and leaves the instance, with its raw points, exactly as
    the first load left it. *)
Theorem cached_load_idempotent (w : World) (force : option bool) :
  forceDownload force = false ->
  (forall cached, paths (this w) = Some cached ->
     (forall xml, _parseSvgPath xml force w = (Ok (raw (this w)), w)) /\
     (forall svgUrl, polygon (container w) <> None ->
        _downloadSvgPath svgUrl force w = (Ok (raw (this w)), w))) /\
  (forall w1, _initRawData force w = (Ok tt, w1) ->
     exists w2, _initRawData force w1 = (Ok tt, w2) /\
                this w2 = this w1 /\
                raw (this w2) = raw (this w1) /\
                fetched w2 = fetched w1).
Proof.
  intro Hf. split.
  - intros cached Hp. split.
    + intro xml. now apply (parseSvgPath_cached w xml force cached).
    + intros svgUrl Ho.
      destruct (polygon (container w)) as [options|] eqn:Hopt; [|contradiction].
      now apply (downloadSvgPath_cached w svgUrl force cached options).
  - intros w1. rewrite initRawData_source.
    destruct (polygon (container w)) as [options|] eqn:Ho.
    + unfold bind at 1.
      destruct (load_source options force w) as [[[]| |] wa] eqn:Hload; try discriminate.
      destruct (load_source_leaves w wa options force Hf Ho Hload) as [Hca Hfilled].
      unfold bind at 1.
      destruct (_createPath2D wa) as [[[]| |] wb] eqn:Hcreate; try discriminate.
      assert (Hoa : polygon (container wa) = Some options) by now rewrite Hca.
      destruct (createPath2D_leaves wa wb options Hoa Hcreate)
        as (Hcb & _ & _ & Hkeep & Hsettled).
      unfold dispatchEvent. intro H. injection H as <-.
      set (w1 := set_dispatched _ wb).
      assert (Ho1 : polygon (container w1) = Some options)
        by (unfold w1; simpl; now rewrite Hcb).
      exists (set_dispatched (dispatched w1 ++ ["polygonMaskLoaded"%string]) w1).
      rewrite initRawData_source, Ho1.
      unfold bind at 1.
      rewrite (load_source_cached w1 options force Hf Ho1)
        by (destruct Hfilled as [Hp|Hn]; [left; apply Hkeep, Hp | right; exact Hn]).
      unfold bind at 1.
      rewrite (createPath2D_settled w1) by exact Hsettled.
      repeat split.
    + intro H. injection H as <-. exists w.
      rewrite initRawData_source, Ho. repeat split.
Qed.

(** C5.  Every parse that is not answered from the cache stores the scaled
    size of the [svg] as the dimension and, as the offset, the canvas size
    times the relative position over 100, minus half the dimension, on each
    axis (the position defaulting to (50,50)).  For a canvas of 800 by 600,
    position (50,50) and a scaled size of 200 by 100 the offset is
    (300, 250). *)
Theorem parse_offset_formula (w : World) xml force options svg others :
  paths (this w) = None \/ forceDownload force = true ->
  polygon (container w) = Some options ->
  doc_svgs (parseFromString xml) = svg :: others ->
  let relative := match position options with
                  | Some p => p
                  | None => {| x := 50; y := 50 |}
                  end in
  let canvasSize := canvas_size (container w) in
  exists r w' computed,
    _parseSvgPath xml force w = (Ok r, w') /\
    dimension (this w')
    = {| width := parseFloat_attr (attr_width svg) * _scale (this w);
         height := parseFloat_attr (attr_height svg) * _scale (this w) |} /\
    offset (this w') = Some computed /\
    computed
    = {| x := width canvasSize * x relative / 100 - width (dimension (this w')) / 2;
         y := height canvasSize * y relative / 100 - height (dimension (this w')) / 2 |} /\
    (width canvasSize == 800 -> height canvasSize == 600 ->
     x relative == 50 -> y relative == 50 ->
     width (dimension (this w')) == 200 -> height (dimension (this w')) == 100 ->
     x computed == 300 /\ y computed == 250).
Proof.
  intros Hfresh Ho Hdoc relative canvasSize.
  unfold _parseSvgPath, bind, get, put, ret.
  assert (Hgo : match paths (this w), forceDownload force with
                | Some _, false => false
                | _, _ => true
                end = true).
  { destruct Hfresh as [-> | ->]; [reflexivity | now destruct (paths (this w))]. }
  rewrite Ho, Hdoc.
  destruct (paths (this w)) as [cached|]; destruct (forceDownload force);
    try discriminate Hgo;
    (do 3 eexists; split; [reflexivity|]; simpl;
     split; [reflexivity|]; split; [reflexivity|]; split; [reflexivity|];
     intros Hw Hh Hx Hy Hdw Hdh; simpl in Hdw, Hdh; simpl;
     fold canvasSize; fold relative;
     rewrite Hw, Hh, Hx, Hy, Hdw, Hdh; split; reflexivity).
Qed.

End Loading.

Lemma cached_load_idempotent_witness :
  (forall cached,
      paths (this (square_world PolygonMaskType.inline
                     PolygonMaskInlineArrangement.onePerPoint)) = Some cached ->
      (forall xml,
          @_parseSvgPath sample_host xml None
            (square_world PolygonMaskType.inline PolygonMaskInlineArrangement.onePerPoint)
          = (Ok (Some square),
             square_world PolygonMaskType.inline PolygonMaskInlineArrangement.onePerPoint)) /\
      (forall svgUrl,
          polygon (container (square_world PolygonMaskType.inline
                                PolygonMaskInlineArrangement.onePerPoint)) <> None ->
          @_downloadSvgPath sample_host svgUrl None
            (square_world PolygonMaskType.inline PolygonMaskInlineArrangement.onePerPoint)
          = (Ok (Some square),
             square_world PolygonMaskType.inline PolygonMaskInlineArrangement.onePerPoint))) /\
  (forall w1,
      @_initRawData sample_host None
        (square_world PolygonMaskType.inline PolygonMaskInlineArrangement.onePerPoint)
      = (Ok tt, w1) ->
      exists w2, @_initRawData sample_host None w1 = (Ok tt, w2) /\
                 this w2 = this w1 /\
                 raw (this w2) = raw (this w1) /\
                 fetched w2 = fetched w1).
Proof.
  apply (@cached_load_idempotent sample_host
           (square_world PolygonMaskType.inline PolygonMaskInlineArrangement.onePerPoint)
           None).
  reflexivity.
Defined.

Lemma parse_offset_formula_witness :
  exists r w' computed,
    @_parseSvgPath sample_host (Text "<svg/>") None
      (fresh_world PolygonMaskType.inside PolygonMaskInlineArrangement.onePerPoint)
    = (Ok r, w') /\
    dimension (this w') = {| width := 200 * 1; height := 100 * 1 |} /\
    offset (this w') = Some computed /\
    computed
    = {| x := 800 * 50 / 100 - width (dimension (this w')) / 2;
         y := 600 * 50 / 100 - height (dimension (this w')) / 2 |} /\
    (800 == 800 -> 600 == 600 -> 50 == 50 -> 50 == 50 ->
     width (dimension (this w')) == 200 -> height (dimension (this w')) == 100 ->
     x computed == 300 /\ y computed == 250).
Proof.
  apply (@parse_offset_formula sample_host
           (fresh_world PolygonMaskType.inside PolygonMaskInlineArrangement.onePerPoint)
           (Text "<svg/>") None
           (sample_options PolygonMaskType.inside PolygonMaskInlineArrangement.onePerPoint)
           {| attr_width := Some 200; attr_height := Some 100;
              svg_paths := [square_element] |} []).
  - left. reflexivity.
  - reflexivity.
  - reflexivity.
Defined.

(** ** Equidistant sampling *)

Section Equidistant.

Lemma totalLength_fold (segments : list ISvgPath.t) :
  totalLength segments = fold_left add_length segments 0.
Proof. reflexivity. Qed.

Lemma fold_add_length_ge (segments : list ISvgPath.t) :
  (forall s, In s segments -> 0 <= ISvgPath.length s) ->
  forall start, start <= fold_left add_length segments start.
Proof.
  induction segments as [|s rest IH]; intros Hpos start; simpl.
  - apply Qle_refl.
  - apply Qle_trans with (add_length start s).
    + unfold add_length. pose proof (Hpos s (or_introl eq_refl)). lra.
    + apply IH. intros s' Hin. apply Hpos. now right.
Qed.








Lemma rev_case {A} (l : list A) : l = [] \/ exists front z, l = front ++ [z].
Proof.
  destruct l as [|a l] using rev_ind; [now left | right; eauto].
Qed.


End Equidistant.


(** ** Lifecycle and spawning *)

Lemma copy_eta (c : ICoordinates) : {| x := x c; y := y c |} = c.
Proof. now destruct c. Qed.

Section Lifecycle.

Context {E : Externals}.

(** C7, as the code has it.  [stop] discards the raw polygon and the paths,
    and nothing else: the offset, the dimension and every other field stay as
    they were, as does the world around the instance.  Stopping twice leaves
    the world that stopping once leaves. *)
Theorem stop_discards_raw_and_paths (w : World) :
  exists w1,
    stop w = (Ok tt, w1) /\
    raw (this w1) = None /\ paths (this w1) = None /\
    offset (this w1) = offset (this w) /\
    dimension (this w1) = dimension (this w) /\
    redrawTimeout (this w1) = redrawTimeout (this w) /\
    _moveRadius (this w1) = _moveRadius (this w) /\
    _scale (this w1) = _scale (this w) /\
    container w1 = container w /\ draws w1 = draws w /\
    fetched w1 = fetched w /\ dispatched w1 = dispatched w /\
    stop w1 = (Ok tt, w1).
Proof.
  eexists. split; [reflexivity|]. repeat split.
Qed.

Lemma for_of_addParticle (items : list ICoordinates) (f : ICoordinates -> ICoordinates) :
  forall w, for_of items (fun item => addParticle (f item)) w
            = (Ok tt, spawned (map f items) w).
Proof.
  induction items as [|item rest IH]; intro w.
  - simpl. unfold ret, spawned. rewrite app_nil_r.
    destruct w as [i c d fe di]; destruct c; reflexivity.
  - simpl. unfold bind. unfold addParticle at 1. rewrite IH.
    unfold spawned. simpl. rewrite <- app_assoc. reflexivity.
Qed.

(** C8, as the code has it.  When the mask is enabled with type [inline] and
    arrangement [onePerPoint] or [perPoint], [particlesInitialization] asks
    the host for one particle at every vertex of the loaded polygon, in
    order (none when no polygon is loaded), and returns [true]; in every
    other configuration it changes nothing and returns [false]. *)
Theorem particlesInitialization_one_per_point (w : World) :
  (one_per_point_mode w = true ->
   particlesInitialization w = (Ok true, spawned (loaded_vertices w) w)) /\
  (one_per_point_mode w = false ->
   particlesInitialization w = (Ok false, w)).
Proof.
  unfold one_per_point_mode, particlesInitialization, bind, get.
  destruct (polygon (container w)) as [options|]; [|split; [discriminate|reflexivity]].
  destruct (enable options), (type options), (inline_arrangement options); simpl;
    split; try discriminate; try reflexivity; intros _;
    unfold _drawPoints, bind, get, loaded_vertices;
    (destruct (raw (this w)) as [vertices|];
     [ rewrite for_of_addParticle; unfold ret;
       rewrite (map_ext _ (fun c => c) copy_eta), map_id; reflexivity
     | unfold ret, spawned; rewrite app_nil_r;
       destruct w as [i c d fe di]; destruct c; reflexivity ]).
Qed.

(** C9.  [_getPointByIndex] throws the data-not-loaded error exactly when the
    raw polygon is absent or empty; otherwise, for an index from 0 on, it
    returns the coordinates of the vertex at position [index mod length] and
    leaves the world as it was. *)
Theorem getPointByIndex_modulo (w : World) :
  (forall index,
      fst (_getPointByIndex index w) = Throw NoPolygonDataLoaded
      <-> raw (this w) = None \/ raw (this w) = Some []) /\
  (forall vertices index,
      raw (this w) = Some vertices -> vertices <> [] -> (0 <= index)%Z ->
      exists vertex,
        nth_error vertices (Z.to_nat (index mod Z.of_nat (List.length vertices)))
        = Some vertex /\
        _getPointByIndex index w = (Ok {| x := x vertex; y := y vertex |}, w)).
Proof.
  split.
  - intro index. unfold _getPointByIndex, bind, get.
    destruct (raw (this w)) as [[|v vs]|]; simpl.
    + split; [intros _; right; reflexivity | reflexivity].
    + split.
      * destruct (array_get _ _); discriminate.
      * intros [H|H]; discriminate.
    + split; [intros _; left; reflexivity | reflexivity].
  - intros vertices index Hraw Hne Hi.
    assert (Hlen : (0 < Z.of_nat (List.length vertices))%Z).
    { destruct vertices; [contradiction | simpl; lia]. }
    pose proof (Z.mod_pos_bound index _ Hlen) as Hmod.
    destruct (nth_error vertices (Z.to_nat (index mod Z.of_nat (List.length vertices))))
      as [vertex|] eqn:Hnth.
    + exists vertex. split; [reflexivity|].
      unfold _getPointByIndex, bind, get. rewrite Hraw.
      destruct vertices as [|v vs]; [contradiction|].
      rewrite Z.rem_mod_nonneg by lia.
      unfold array_get.
      destruct (_ <? 0)%Z eqn:Hneg; [apply Z.ltb_lt in Hneg; lia|].
      rewrite Hnth. reflexivity.
    + apply nth_error_None in Hnth. lia.
Qed.

(** C10.  [particlePosition] returns [undefined] whenever the mask is not
    configured or disabled, or the raw polygon is absent or empty.  When the
    mask is enabled and the polygon has a vertex, a position that is given
    comes back as a copy, whatever the containment test would say of it, and
    the world is left as it was. *)
Theorem particlePosition_passes_position (w : World) (fuel : nat) :
  (forall position,
      ~ mask_ready w -> particlePosition fuel position w = (Ok None, w)) /\
  (forall p,
      mask_ready w -> particlePosition fuel (Some p) w = (Ok (Some (Copy p)), w)).
Proof.
  split.
  - intros position Hnot. unfold particlePosition, bind, get.
    destruct (polygon (container w)) as [options|] eqn:Ho; [|reflexivity].
    destruct (enable options) eqn:Hen; [|reflexivity].
    destruct (raw (this w)) as [[|v vs]|] eqn:Hraw; try reflexivity.
    exfalso. apply Hnot. split; eauto.
  - intros p [(options & Ho & Hen) (v & vs & Hraw)].
    unfold particlePosition, bind, get. rewrite Ho, Hen, Hraw.
    assert (Hpos : ltb 0 (inject_Z (Z.of_nat (List.length (v :: vs)))) = true).
    { apply ltb_lt. change 0 with (inject_Z 0). rewrite <- Zlt_Qlt.
      simpl List.length. lia. }
    rewrite Hpos. simpl. unfold ret. now rewrite copy_eta.
Qed.

End Lifecycle.

(** C7, as stated, fails: after [stop] the offset of the instance that held
    the square is still there. *)
Lemma stop_keeps_offset :
  let w := square_world PolygonMaskType.inside PolygonMaskInlineArrangement.onePerPoint in
  exists w1,
    stop w = (Ok tt, w1) /\
    ~ (raw (this w1) = None /\ paths (this w1) = None /\ offset (this w1) = None).
Proof.
  eexists. split; [reflexivity|].
  intros (_ & _ & H). discriminate H.
Qed.

(** C8, as stated, fails: with arrangement [onePerPoint] but type [inside],
    nothing is spawned and the answer is [false]. *)
Lemma particlesInitialization_needs_inline :
  let w := square_world PolygonMaskType.inside PolygonMaskInlineArrangement.onePerPoint in
  inline_arrangement (sample_options PolygonMaskType.inside
                        PolygonMaskInlineArrangement.onePerPoint)
  = PolygonMaskInlineArrangement.onePerPoint /\
  ~ (exists w1, particlesInitialization w = (Ok true, w1) /\
                particles (container w1) = particles (container w) ++ square) /\
  particlesInitialization w = (Ok false, w).
Proof.
  split; [reflexivity|]. split; [|reflexivity].
  intros (w1 & H & _). discriminate H.
Qed.

(** ** Runs on the sample host *)

(** [init] on a new instance fetches the URL once, stores the anchors of the
    square moved by the offset (300, 250), and announces the load. *)
Example init_loads_square :
  let run := @init sample_host
               (fresh_world PolygonMaskType.inside PolygonMaskInlineArrangement.onePerPoint) in
  fst run = Ok tt /\
  option_map (map reduced) (raw (this (snd run)))
  = Some [pt 300 250; pt 310 250; pt 310 260; pt 300 260] /\
  option_map reduced (offset (this (snd run))) = Some (pt 300 250) /\
  fetched (snd run) = ["https://particles.js.org/square.svg"%string] /\
  dispatched (snd run) = ["polygonMaskLoaded"%string].
Proof. vm_compute. repeat split. Qed.

(** A particle half a unit above the bottom edge of the square, with radius
    1, bounces on that edge: its velocity (1, -1) is reflected to (1, 1). *)
Example bounce_on_bottom_edge :
  match fst (@particleBounce sample_host (sample_particle (pt 5 (1 # 2)) 1)
               OutModeDirection.top
               (square_world PolygonMaskType.inside
                  PolygonMaskInlineArrangement.onePerPoint)) with
  | Ok (handled, particle) =>
      handled = true /\ reduced (velocity particle) = pt 1 1 /\
      particle_position particle = pt 5 (1 # 2)
  | _ => False
  end.
Proof. vm_compute. repeat split. Qed.

(** With type [outside], the first random point of the sample host, (0, 150),
    is accepted; with type [inside] the four points the host keeps drawing
    all lie outside the square, and the budget runs out. *)
Example randomPoint_outside_accepts :
  option_map (option_map reduced)
    (match fst (@_randomPoint sample_host 1
                  (square_world PolygonMaskType.outside
                     PolygonMaskInlineArrangement.onePerPoint)) with
     | Ok p => Some p
     | _ => None
     end)
  = Some (Some (pt 0 150)).
Proof. vm_compute. reflexivity. Qed.

Example randomPoint_inside_exhausts :
  fst (@_randomPoint sample_host 16
         (square_world PolygonMaskType.inside PolygonMaskInlineArrangement.onePerPoint))
  = Exhausted.
Proof. vm_compute. reflexivity. Qed.

(** With type [inline] and arrangement [equidistant], four particles target
    and three present, the next point is three quarters along the outline. *)
Example equidistant_fourth_point :
  let w := square_world PolygonMaskType.inline PolygonMaskInlineArrangement.equidistant in
  option_map (option_map reduced)
    (match fst (_getEquidistantPointByIndex 3 w) with
     | Ok p => Some p
     | _ => None
     end)
  = Some (Some (pt 0 10)).
Proof. vm_compute. reflexivity. Qed.

(** An index below zero reads no vertex: the property access throws. *)
Example getPointByIndex_negative :
  fst (_getPointByIndex (-1)
         (square_world PolygonMaskType.inline PolygonMaskInlineArrangement.onePerPoint))
  = Throw TypeError.
Proof. vm_compute. reflexivity. Qed.

(** A position outside the mask is handed back by [particlePosition] although
    the containment test rejects it. *)
Example particlePosition_outside_mask :
  let w := square_world PolygonMaskType.inside PolygonMaskInlineArrangement.onePerPoint in
  fst (@_checkInsidePolygon sample_host (Some (pt 15 15)) w) = Ok false /\
  fst (@particlePosition sample_host 0 (Some (pt 15 15)) w) = Ok (Some (Copy (pt 15 15))).
Proof. vm_compute. split; reflexivity. Qed.

(** A particle at (20, 5), outside the square and with no edge within its
    radius of 1, is put at (8, 12).  The product of [velocity.mult(-1)] is
    stored nowhere: the velocity is the one the particle came with. *)
Example bounce_outside_square :
  match fst (@particleBounce sample_host (sample_particle (pt 20 5) 1)
               OutModeDirection.top
               (square_world PolygonMaskType.inside
                  PolygonMaskInlineArrangement.onePerPoint)) with
  | Ok (handled, particle) =>
      handled = true /\ reduced (particle_position particle) = pt 8 12 /\
      velocity particle = velocity (sample_particle (pt 20 5) 1)
  | _ => False
  end.
Proof. vm_compute. repeat split. Qed.

(** With a raw polygon that is present but empty and a path without a [d]
    attribute, [_createPath2D] throws on the first point of the outline, and
    the path is left with the empty [Path2D] it was given just before. *)
Example createPath2D_on_empty_raw :
  let bare := {| attr_d := None; getTotalLength := 40;
                 getPointAtLength := square_point_at |} in
  let path := {| ISvgPath.element := bare; ISvgPath.length := 40;
                 ISvgPath.path2d := None |} in
  let w := set_this (set_raw (Some []) (set_paths (Some [path]) square_instance))
             (square_world PolygonMaskType.inside
                PolygonMaskInlineArrangement.onePerPoint) in
  fst (@_createPath2D sample_host w) = Throw TypeError /\
  option_map (map ISvgPath.path2d) (paths (this (snd (@_createPath2D sample_host w))))
  = Some [Some Path2D_new].
Proof. vm_compute. split; reflexivity. Qed.

(** With a particle number of zero the equidistant sampler reaches no path
    and answers the bare offset, here (3, 4), not a point of the path. *)
Example equidistant_without_particles :
  let element := {| attr_d := None; getTotalLength := 40;
                    getPointAtLength := fun _ => pt 7 7 |} in
  let path := {| ISvgPath.element := element; ISvgPath.length := 40;
                 ISvgPath.path2d := None |} in
  let w := {| this := set_offset (Some (pt 3 4))
                        (set_paths (Some [path]) square_instance);
              container :=
                {| polygon := Some (sample_options PolygonMaskType.inline
                                      PolygonMaskInlineArrangement.equidistant);
                   particles_number_value := 0;
                   canvas_size := {| width := 800; height := 600 |};
                   pixelRatio := 1;
                   particles := [] |};
              draws := 0; fetched := []; dispatched := [] |} in
  option_map (option_map reduced)
    (match fst (_getEquidistantPointByIndex 2 w) with
     | Ok p => Some p
     | _ => None
     end)
  = Some (Some (pt 3 4)).
Proof. vm_compute. reflexivity. Qed.

(** * Further properties *)

(** ** Containment: errors, effects, clicks *)

Section Containment.

Context {E : Externals}.

(** The three ways [_checkInsidePolygon] ends. *)
Lemma checkInsidePolygon_cases (w : World) (position : option ICoordinates) :
  (constrains w = false /\ _checkInsidePolygon position w = (Ok true, w)) \/
  (constrains w = true /\ raw (this w) = None /\
   _checkInsidePolygon position w = (Throw NoPolygonFound, w)) \/
  (constrains w = true /\
   exists options vertices,
     polygon (container w) = Some options /\ enable options = true /\
     (type options = PolygonMaskType.inside \/ type options = PolygonMaskType.outside) /\
     raw (this w) = Some vertices /\
     _checkInsidePolygon position w
     = (Ok (passes options vertices (test_point w position)), after_test w position)).
Proof.
  unfold constrains.
  destruct (polygon (container w)) as [options|] eqn:Ho;
    [|left; split; [reflexivity|]; unfold _checkInsidePolygon, bind, get; now rewrite Ho].
  destruct (enable options) eqn:Hen;
    [|left; split; [reflexivity|]; unfold _checkInsidePolygon, bind, get;
      now rewrite Ho, Hen].
  destruct (type options) eqn:Hty; simpl;
    try (left; split; [reflexivity|]; unfold _checkInsidePolygon, bind, get;
         now rewrite Ho, Hen, Hty).
  - destruct (raw (this w)) as [vertices|] eqn:Hraw.
    + right; right. split; [reflexivity|]. exists options, vertices.
      repeat split; try assumption; [now left|].
      apply (checkInsidePolygon_at w options vertices position Ho Hen); [now left|assumption].
    + right; left. repeat split.
      unfold _checkInsidePolygon, bind, get. now rewrite Ho, Hen, Hty, Hraw.
  - destruct (raw (this w)) as [vertices|] eqn:Hraw.
    + right; right. split; [reflexivity|]. exists options, vertices.
      repeat split; try assumption; [now right|].
      apply (checkInsidePolygon_at w options vertices position Ho Hen); [now right|assumption].
    + right; left. repeat split.
      unfold _checkInsidePolygon, bind, get. now rewrite Ho, Hen, Hty, Hraw.
Qed.

(** X1.  [_checkInsidePolygon] fails in one way only: it throws the
    no-polygon-found error exactly when the mask constrains positions
    (enabled, type [inside] or [outside]) and no raw polygon is there.  It
    never throws anything else, an empty polygon included, and a failing call
    leaves the world as it was. *)
Theorem checkInsidePolygon_errors (w : World) (position : option ICoordinates) :
  (forall e, fst (_checkInsidePolygon position w) = Throw e
             <-> e = NoPolygonFound /\ constrains w = true /\ raw (this w) = None) /\
  fst (_checkInsidePolygon position w) <> Exhausted /\
  (raw (this w) = None -> snd (_checkInsidePolygon position w) = w).
Proof.
  destruct (checkInsidePolygon_cases w position)
    as [[Hc Hr]|[(Hc & Hraw & Hr)|(Hc & options & vertices & _ & _ & _ & Hraw & Hr)]];
    rewrite Hr; simpl.
  - split; [|split; [discriminate|reflexivity]].
    intro e. split; [discriminate|]. intros (_ & H & _). congruence.
  - split; [|split; [discriminate|reflexivity]].
    intro e. split.
    + intro H. injection H as <-. repeat split; assumption.
    + intros (-> & _ & _). reflexivity.
  - split; [|split; [discriminate|]].
    + intro e. split; [discriminate|]. intros (_ & _ & H). congruence.
    + intro H. congruence.
Qed.

(** X3.  [_checkInsidePolygon] never writes to the instance, the container
    or the logs.  It draws from the random source only when it really tests
    a point and was given none: then it takes exactly two values; in every
    other case it takes none. *)
Theorem checkInsidePolygon_effects (w : World) (position : option ICoordinates) :
  let w' := snd (_checkInsidePolygon position w) in
  this w' = this w /\ container w' = container w /\
  fetched w' = fetched w /\ dispatched w' = dispatched w /\
  draws w' = match position, raw (this w) with
             | None, Some _ => if constrains w then S (S (draws w)) else draws w
             | _, _ => draws w
             end.
Proof.
  destruct (checkInsidePolygon_cases w position)
    as [[Hc Hr]|[(Hc & Hraw & Hr)|(Hc & options & vertices & _ & _ & _ & Hraw & Hr)]];
    rewrite Hr, Hc; simpl.
  - repeat split. now destruct position, (raw (this w)).
  - repeat split. rewrite Hraw. now destruct position.
  - rewrite Hraw. destruct position; repeat split.
Qed.

(** X2.  A click is valid exactly when the mask is enabled with type
    [inside] or [outside], a polygon is loaded and the even-odd flag of the
    point agrees with the type: set for [inside], clear for [outside].  With
    the mask absent, disabled, or of type [none] or [inline], the answer is
    [false] and nothing is thrown, although [_checkInsidePolygon] itself
    answers [true] there. *)
Theorem clickPositionValid_iff (w : World) (p : ICoordinates) :
  (fst (clickPositionValid p w) = Ok true
   <-> exists options vertices,
        polygon (container w) = Some options /\ enable options = true /\
        raw (this w) = Some vertices /\
        ((type options = PolygonMaskType.inside /\
          EvenOdd (x p) (y p) (closed_edges vertices) true) \/
         (type options = PolygonMaskType.outside /\
          EvenOdd (x p) (y p) (closed_edges vertices) false))) /\
  (constrains w = false ->
   clickPositionValid p w = (Ok false, w) /\
   _checkInsidePolygon (Some p) w = (Ok true, w)).
Proof.
  assert (Hclick : clickPositionValid p w
                   = if constrains w then _checkInsidePolygon (Some p) w
                     else (Ok false, w)).
  { unfold clickPositionValid, constrains, bind, get.
    destruct (polygon (container w)) as [options|]; [|reflexivity].
    destruct (enable options), (type options); reflexivity. }
  split.
  - rewrite Hclick.
    destruct (checkInsidePolygon_cases w (Some p))
      as [[Hc Hr]|[(Hc & Hraw & Hr)|(Hc & options & vertices & Ho & Hen & Hty & Hraw & Hr)]];
      rewrite Hc.
    + split; [discriminate|].
      intros (options & vertices & Ho & Hen & _ & Hty).
      unfold constrains in Hc. rewrite Ho, Hen in Hc.
      destruct Hty as [[Hty _]|[Hty _]]; rewrite Hty in Hc; discriminate.
    + rewrite Hr. split; [discriminate|].
      intros (options & vertices & _ & _ & H & _). congruence.
    + rewrite Hr. simpl. unfold passes, inside_flag.
      pose proof (fold_toggle_EvenOdd (x p) (y p) (closed_edges vertices)) as Hflag.
      split.
      * intro H. injection H as H. exists options, vertices.
        repeat split; try assumption.
        destruct Hty as [Hty|Hty]; rewrite Hty in H; simpl in H.
        -- left. split; [assumption|]. now rewrite H in Hflag.
        -- right. split; [assumption|]. apply negb_true_iff in H. now rewrite H in Hflag.
      * intros (options' & vertices' & Ho' & _ & Hraw' & Hcase).
        assert (options' = options) by congruence.
        assert (vertices' = vertices) by congruence. subst.
        destruct Hcase as [[Hty' Hev]|[Hty' Hev]]; rewrite Hty'; simpl;
          rewrite (EvenOdd_functional _ _ _ _ _ Hflag Hev); reflexivity.
  - intro Hc. rewrite Hclick, Hc. split; [reflexivity|].
    destruct (checkInsidePolygon_cases w (Some p))
      as [[_ Hr]|[(Hc' & _)|(Hc' & _)]]; [exact Hr | congruence | congruence].
Qed.

End Containment.

(** ** Rejection sampling in [_randomPoint] *)

Section Rejection.

Context {E : Externals}.

Lemma candidate_shift (w : World) (k : nat) :
  candidate (set_draws (S (S (draws w))) w) k = candidate w (S k).
Proof.
  unfold candidate. simpl draws. simpl container.
  replace (S (S (draws w)) + 2 * k)%nat with (draws w + 2 * S k)%nat by lia.
  replace (S (S (draws w)) + 2 * k + 1)%nat with (draws w + 2 * S k + 1)%nat by lia.
  reflexivity.
Qed.

(** One call of [_randomPoint] when the mask constrains positions: the next
    candidate is returned if it passes, and otherwise the function calls
    itself two draws later. *)
Lemma randomPoint_step (w : World) options vertices (fuel : nat) :
  polygon (container w) = Some options ->
  enable options = true ->
  type options = PolygonMaskType.inside \/ type options = PolygonMaskType.outside ->
  raw (this w) = Some vertices ->
  _randomPoint (S fuel) w
  = if passes options vertices (candidate w 0)
    then (Ok (Some (candidate w 0)), set_draws (S (S (draws w))) w)
    else _randomPoint fuel (set_draws (S (S (draws w))) w).
Proof.
  intros Ho Hen Hty Hraw.
  assert (Hc0 : candidate w 0
                = {| x := random (draws w) * width (canvas_size (container w));
                     y := random (S (draws w)) * height (canvas_size (container w)) |}).
  { unfold candidate. now rewrite Nat.mul_0_r, Nat.add_0_r, Nat.add_1_r. }
  rewrite Hc0.
  set (w2 := set_draws (S (S (draws w))) w).
  set (p := {| x := _; y := _ |}).
  assert (Hcheck : _checkInsidePolygon (Some p) w2 = (Ok (passes options vertices p), w2)).
  { apply (checkInsidePolygon_at w2 options vertices (Some p)); assumption. }
  simpl _randomPoint. unfold bind at 1, get. rewrite Ho.
  assert (Hdraw :
            (let* rx := getRandom in
             let* ry := getRandom in
             ret (Some {| x := rx * width (canvas_size (container w));
                          y := ry * height (canvas_size (container w)) |})) w
            = (Ok (Some p), w2)) by reflexivity.
  destruct Hty as [Hty|Hty]; rewrite Hty; unfold bind at 1; rewrite Hdraw;
    unfold bind at 1; rewrite Hcheck; destruct (passes options vertices p); reflexivity.
Qed.

(** X4.  [_randomPoint], when the mask constrains positions, is rejection
    sampling over the candidates: if the candidates before the k-th fail the
    containment test and the k-th passes, then any budget above k returns the
    k-th candidate, having taken exactly 2(k+1) values from the random source
    and changed nothing else, and any budget up to k runs out. *)
Theorem randomPoint_first_accepted (w : World) options vertices (k fuel : nat) :
  polygon (container w) = Some options ->
  enable options = true ->
  type options = PolygonMaskType.inside \/ type options = PolygonMaskType.outside ->
  raw (this w) = Some vertices ->
  (forall j, (j < k)%nat -> passes options vertices (candidate w j) = false) ->
  passes options vertices (candidate w k) = true ->
  ((k < fuel)%nat ->
   _randomPoint fuel w
   = (Ok (Some (candidate w k)), set_draws (draws w + 2 * (k + 1)) w)) /\
  ((fuel <= k)%nat -> fst (_randomPoint fuel w) = Exhausted).
Proof.
  revert w fuel.
  induction k as [|k IH]; intros w fuel Ho Hen Hty Hraw Hfail Hpass.
  - split.
    + intro Hlt. destruct fuel as [|fuel]; [lia|].
      rewrite (randomPoint_step w options vertices fuel Ho Hen Hty Hraw), Hpass.
      simpl. now rewrite Nat.add_comm.
    + intro Hle. destruct fuel; [reflexivity|lia].
  - destruct fuel as [|fuel]; [split; [lia | reflexivity]|].
    rewrite (randomPoint_step w options vertices fuel Ho Hen Hty Hraw).
    rewrite (Hfail 0%nat) by lia.
    set (w2 := set_draws (S (S (draws w))) w).
    destruct (IH w2 fuel Ho Hen Hty Hraw) as [Hok Hout].
    + intros j Hj. unfold w2. rewrite candidate_shift. apply Hfail. lia.
    + unfold w2. now rewrite candidate_shift.
    + split.
      * intro Hlt. rewrite Hok by lia. unfold w2. rewrite candidate_shift.
        f_equal. unfold set_draws. simpl. f_equal. lia.
      * intro Hle. apply Hout. lia.
Qed.

(** X5.  When no candidate ever passes the containment test, [_randomPoint]
    does not return: every budget runs out, and so does [particlePosition]
    called without a position on a loaded polygon. *)
Theorem randomPoint_never_returns (w : World) options vertex vertices (fuel : nat) :
  polygon (container w) = Some options ->
  enable options = true ->
  type options = PolygonMaskType.inside \/ type options = PolygonMaskType.outside ->
  raw (this w) = Some (vertex :: vertices) ->
  (forall j, passes options (vertex :: vertices) (candidate w j) = false) ->
  fst (_randomPoint fuel w) = Exhausted /\
  fst (particlePosition fuel None w) = Exhausted.
Proof.
  intros Ho Hen Hty Hraw Hfail.
  assert (Hrandom : forall fuel w, polygon (container w) = Some options ->
                      raw (this w) = Some (vertex :: vertices) ->
                      (forall j, passes options (vertex :: vertices) (candidate w j) = false) ->
                      fst (_randomPoint fuel w) = Exhausted).
  { clear w fuel Ho Hraw Hfail.
    intro fuel. induction fuel as [|fuel IH]; intros w Ho Hraw Hfail.
    - reflexivity.
    - rewrite (randomPoint_step w options _ fuel Ho Hen Hty Hraw), (Hfail 0%nat).
      apply IH; [exact Ho | exact Hraw |].
      intro j. rewrite candidate_shift. apply Hfail. }
  split; [now apply Hrandom|].
  unfold particlePosition, bind at 1, get. rewrite Ho, Hen, Hraw.
  assert (Hpos : ltb 0 (inject_Z (Z.of_nat (List.length (vertex :: vertices)))) = true).
  { apply ltb_lt. change 0 with (inject_Z 0). rewrite <- Zlt_Qlt.
    simpl List.length. lia. }
  rewrite Hpos. cbn [andb negb]. cbv beta iota. unfold bind.
  specialize (Hrandom fuel w Ho Hraw Hfail).
  destruct (_randomPoint fuel w) as [[r| |] w']; simpl in Hrandom;
    try discriminate. reflexivity.
Qed.

End Rejection.

Lemma randomPoint_first_accepted_witness :
  ((1 < 2)%nat ->
   @_randomPoint sample_host 2 (far_world PolygonMaskType.inside)
   = (Ok (Some (@candidate sample_host (far_world PolygonMaskType.inside) 1)),
      set_draws (0 + 2 * (1 + 1)) (far_world PolygonMaskType.inside))) /\
  ((2 <= 1)%nat ->
   fst (@_randomPoint sample_host 2 (far_world PolygonMaskType.inside)) = Exhausted).
Proof.
  apply (@randomPoint_first_accepted sample_host (far_world PolygonMaskType.inside)
           (sample_options PolygonMaskType.inside PolygonMaskInlineArrangement.onePerPoint)
           far_square 1 2).
  - reflexivity.
  - reflexivity.
  - left; reflexivity.
  - reflexivity.
  - intros j Hj. assert (j = 0)%nat as -> by lia. reflexivity.
  - reflexivity.
Defined.

Lemma randomPoint_never_returns_witness :
  fst (@_randomPoint still_host 5
         (square_world PolygonMaskType.inside PolygonMaskInlineArrangement.onePerPoint))
  = Exhausted /\
  fst (@particlePosition still_host 5 None
         (square_world PolygonMaskType.inside PolygonMaskInlineArrangement.onePerPoint))
  = Exhausted.
Proof.
  apply (@randomPoint_never_returns still_host
           (square_world PolygonMaskType.inside PolygonMaskInlineArrangement.onePerPoint)
           (sample_options PolygonMaskType.inside PolygonMaskInlineArrangement.onePerPoint)
           (pt 0 0) [pt 10 0; pt 10 10; pt 0 10] 5).
  - reflexivity.
  - reflexivity.
  - left; reflexivity.
  - reflexivity.
  - intro j. reflexivity.
Defined.

(** ** The samplers *)

Section Samplers.

Context {E : Externals}.

Lemma array_get_in_range {A} (array : list A) (k : Z) :
  (0 <= k < Z.of_nat (List.length array))%Z ->
  exists a, nth_error array (Z.to_nat k) = Some a /\ array_get array k = Some a.
Proof.
  intros [H0 Hlt]. unfold array_get.
  destruct (k <? 0)%Z eqn:Hneg; [apply Z.ltb_lt in Hneg; lia|].
  destruct (nth_error array (Z.to_nat k)) as [a|] eqn:Hnth; [eauto|].
  apply nth_error_None in Hnth. lia.
Qed.

Lemma getPointByIndex_at (w : World) vertices (index : Z) :
  raw (this w) = Some vertices -> vertices <> [] -> (0 <= index)%Z ->
  exists vertex,
    nth_error vertices (Z.to_nat (index mod Z.of_nat (List.length vertices))) = Some vertex /\
    _getPointByIndex index w = (Ok vertex, w).
Proof.
  intros Hraw Hne Hi.
  assert (Hlen : (0 < Z.of_nat (List.length vertices))%Z).
  { destruct vertices; [contradiction | simpl; lia]. }
  destruct (array_get_in_range vertices (index mod Z.of_nat (List.length vertices)))
    as (vertex & Hnth & Hget); [now apply Z.mod_pos_bound|].
  exists vertex. split; [exact Hnth|].
  unfold _getPointByIndex, bind, get. rewrite Hraw.
  destruct vertices as [|v vs]; [contradiction|].
  rewrite Z.rem_mod_nonneg by lia. rewrite Hget. unfold ret. now rewrite copy_eta.
Qed.

(** X6.  With type [inline] and arrangement [onePerPoint] or [perPoint],
    [particlePosition] without a position needs one call of [_randomPoint]
    only and draws nothing: it answers a copy of the vertex whose index is
    the current particle count modulo the number of vertices, and leaves the
    world as it was. *)
Theorem particlePosition_one_per_point (w : World) options vertices :
  polygon (container w) = Some options ->
  enable options = true ->
  type options = PolygonMaskType.inline ->
  inline_arrangement options = PolygonMaskInlineArrangement.onePerPoint \/
  inline_arrangement options = PolygonMaskInlineArrangement.perPoint ->
  raw (this w) = Some vertices ->
  vertices <> [] ->
  exists vertex,
    nth_error vertices
      (Z.to_nat (particles_count (container w) mod Z.of_nat (List.length vertices)))
    = Some vertex /\
    forall fuel, particlePosition (S fuel) None w = (Ok (Some (Copy vertex)), w).
Proof.
  intros Ho Hen Hty Harr Hraw Hne.
  destruct (getPointByIndex_at w vertices (particles_count (container w)) Hraw Hne)
    as (vertex & Hnth & Hget); [unfold particles_count; lia|].
  exists vertex. split; [exact Hnth|]. intro fuel.
  assert (Hcheck : _checkInsidePolygon (Some vertex) w = (Ok true, w)).
  { unfold _checkInsidePolygon, bind, get. now rewrite Ho, Hen, Hty. }
  assert (Hrandom : _randomPoint (S fuel) w = (Ok (Some vertex), w)).
  { simpl _randomPoint. unfold bind at 1, get. rewrite Ho, Hty. cbv zeta.
    destruct Harr as [Harr|Harr]; rewrite Harr; unfold bind; rewrite Hget;
      unfold ret; rewrite Hcheck; reflexivity. }
  unfold particlePosition, bind at 1, get. rewrite Ho, Hen, Hraw.
  assert (Hpos : ltb 0 (inject_Z (Z.of_nat (List.length vertices))) = true).
  { apply ltb_lt. change 0 with (inject_Z 0). rewrite <- Zlt_Qlt.
    destruct vertices; [contradiction | simpl List.length; lia]. }
  rewrite Hpos. cbn [andb negb]. cbv beta iota. unfold bind. rewrite Hrandom.
  unfold ret, deepExtend. now rewrite copy_eta.
Qed.

Lemma floor_index_in_range (r : Q) (n : nat) :
  0 <= r -> r < 1 -> (0 < n)%nat ->
  (0 <= Qfloor (r * inject_Z (Z.of_nat n)) < Z.of_nat n)%Z.
Proof.
  intros H0 H1 Hn.
  assert (Hnq : 0 < inject_Z (Z.of_nat n)).
  { change 0 with (inject_Z 0). rewrite <- Zlt_Qlt. lia. }
  split.
  - change 0%Z with (Qfloor (inject_Z 0)). apply Qfloor_resp_le.
    change (inject_Z 0) with 0. apply Qmult_le_0_compat; lra.
  - rewrite Zlt_Qlt. apply Qle_lt_trans with (r * inject_Z (Z.of_nat n)).
    + apply Qfloor_le.
    + rewrite <- (Qmult_1_l (inject_Z (Z.of_nat n))) at 2.
      apply Qmult_lt_compat_r; assumption.
Qed.

(** X7.  [_getRandomPoint], given a random value in [0, 1), answers one of
    the vertices of the polygon, takes one value from the random source and
    changes nothing else. *)
Theorem getRandomPoint_picks_vertex (w : World) vertices :
  raw (this w) = Some vertices ->
  vertices <> [] ->
  0 <= random (draws w) -> random (draws w) < 1 ->
  exists vertex,
    In vertex vertices /\
    _getRandomPoint w = (Ok vertex, set_draws (S (draws w)) w).
Proof.
  intros Hraw Hne H0 H1.
  assert (Hn : (0 < List.length vertices)%nat).
  { destruct vertices; [contradiction | simpl; lia]. }
  destruct (array_get_in_range vertices
              (Qfloor (random (draws w) * inject_Z (Z.of_nat (List.length vertices)))))
    as (vertex & Hnth & Hget); [now apply floor_index_in_range|].
  exists vertex. split; [eapply nth_error_In; exact Hnth|].
  unfold _getRandomPoint, bind at 1, get. rewrite Hraw.
  destruct vertices as [|v vs]; [contradiction|].
  unfold bind, itemFromArray, bind, getRandom, ret. rewrite Hget.
  now rewrite copy_eta.
Qed.

(** X8.  [_getRandomPointByLength], given random values in [0, 1) and
    non-negative path lengths, samples one of the loaded paths at a whole
    number of units that is at least 1 and at most the length of the path
    plus 1: the start of a path is never sampled.  It takes two values from
    the random source and changes nothing else. *)
Theorem getRandomPointByLength_whole_units (w : World) options vertex vertices segments :
  polygon (container w) = Some options ->
  raw (this w) = Some (vertex :: vertices) ->
  paths (this w) = Some segments ->
  segments <> [] ->
  (forall s, In s segments -> 0 <= ISvgPath.length s) ->
  0 <= random (draws w) -> random (draws w) < 1 ->
  0 <= random (S (draws w)) -> random (S (draws w)) < 1 ->
  exists path k,
    In path segments /\ (1 <= k)%Z /\ inject_Z k <= ISvgPath.length path + 1 /\
    _getRandomPointByLength w
    = (Ok (Some {| x := x (getPointAtLength (ISvgPath.element path) (inject_Z k))
                        * _scale (this w) + offset_x (this w);
                   y := y (getPointAtLength (ISvgPath.element path) (inject_Z k))
                        * _scale (this w) + offset_y (this w) |}),
       set_draws (S (S (draws w))) w).
Proof.
  intros Ho Hraw Hpaths Hne Hlen H0 H1 H0' H1'.
  assert (Hn : (0 < List.length segments)%nat).
  { destruct segments; [contradiction | simpl; lia]. }
  destruct (array_get_in_range segments
              (Qfloor (random (draws w) * inject_Z (Z.of_nat (List.length segments)))))
    as (path & Hnth & Hget); [now apply floor_index_in_range|].
  assert (Hin : In path segments) by (eapply nth_error_In; exact Hnth).
  pose proof (Hlen path Hin) as Hpl.
  set (r := random (S (draws w))) in *.
  exists path, (Qfloor (r * ISvgPath.length path) + 1)%Z.
  split; [exact Hin|]. split; [|split].
  - assert (0 <= Qfloor (r * ISvgPath.length path))%Z; [|lia].
    change 0%Z with (Qfloor (inject_Z 0)). apply Qfloor_resp_le.
    change (inject_Z 0) with 0. apply Qmult_le_0_compat; assumption.
  - rewrite inject_Z_plus. apply Qplus_le_l.
    apply Qle_trans with (r * ISvgPath.length path); [apply Qfloor_le|].
    rewrite <- (Qmult_1_l (ISvgPath.length path)) at 2.
    apply Qmult_le_compat_r; [lra | exact Hpl].
  - unfold _getRandomPointByLength, bind at 1, get. rewrite Ho, Hraw, Hpaths.
    destruct segments as [|s0 ss]; [contradiction|].
    unfold bind, itemFromArray, bind, getRandom, ret. rewrite Hget.
    simpl draws. fold r.
    assert (Hd : floor (r * ISvgPath.length path) + 1
                 = inject_Z (Qfloor (r * ISvgPath.length path) + 1)).
    { unfold floor, inject_Z, Qplus. simpl. f_equal. lia. }
    rewrite Hd. reflexivity.
Qed.

End Samplers.

Section SamplerEdges.

(** A target beyond the total length is reached on no path. *)
Lemma equidistant_loop_beyond (target : Q) :
  forall segments start,
    (forall s, In s segments -> 0 <= ISvgPath.length s) ->
    fold_left add_length segments start < target ->
    equidistant_loop segments target start = None.
Proof.
  induction segments as [|path rest IH]; intros start Hpos Hlt; [reflexivity|].
  simpl in *.
  assert (Hrest : forall s, In s rest -> 0 <= ISvgPath.length s)
    by (intros s Hs; apply Hpos; now right).
  pose proof (fold_add_length_ge rest Hrest (add_length start path)) as Hge.
  destruct (leb (target - start) (ISvgPath.length path)) eqn:Hcmp.
  - apply leb_le in Hcmp. unfold add_length in Hge at 1. lra.
  - apply IH; assumption.
Qed.

(** X9.  When the offset [stride * index] lies beyond the total length of
    the paths (an index above the particle number), the equidistant sampler
    finds no path and answers the bare offset of the mask: the point
    [(0 * scale + offset.x, 0 * scale + offset.y)], for every such index. *)
Theorem equidistant_beyond_total (w : World) options vertex vertices segments (index : Z) :
  polygon (container w) = Some options ->
  raw (this w) = Some (vertex :: vertices) ->
  paths (this w) = Some segments ->
  segments <> [] ->
  (forall s, In s segments -> 0 <= ISvgPath.length s) ->
  totalLength segments < sample_offset w segments index ->
  _getEquidistantPointByIndex index w
  = (Ok (Some {| x := 0 * _scale (this w) + offset_x (this w);
                 y := 0 * _scale (this w) + offset_y (this w) |}), w).
Proof.
  intros Ho Hraw Hpaths Hne Hpos Hbeyond.
  unfold _getEquidistantPointByIndex, bind, get. rewrite Ho, Hraw, Hpaths.
  destruct segments as [|s0 ss] eqn:Hs; [contradiction|]. rewrite <- Hs in *.
  unfold equidistant_target.
  destruct (Qeq_bool (particles_number_value (container w)) 0); [reflexivity|].
  change (totalLength segments / particles_number_value (container w) * inject_Z index)
    with (sample_offset w segments index).
  rewrite (equidistant_loop_beyond _ segments 0 Hpos)
    by (rewrite <- totalLength_fold; exact Hbeyond).
  reflexivity.
Qed.

(** X10.  [_getEquidistantPointByIndex] answers [undefined] exactly when no
    mask is configured, and throws, always the data-not-loaded error,
    exactly when a mask is configured and the raw polygon or the paths are
    absent or empty.  It never changes the world. *)
Theorem equidistant_errors (w : World) (index : Z) :
  (fst (_getEquidistantPointByIndex index w) = Ok None
   <-> polygon (container w) = None) /\
  (forall e, fst (_getEquidistantPointByIndex index w) = Throw e
             <-> e = NoPolygonDataLoaded /\ polygon (container w) <> None /\
                 (raw (this w) = None \/ raw (this w) = Some [] \/
                  paths (this w) = None \/ paths (this w) = Some [])) /\
  snd (_getEquidistantPointByIndex index w) = w.
Proof.
  unfold _getEquidistantPointByIndex, bind, get.
  destruct (polygon (container w)) as [options|].
  - destruct (raw (this w)) as [[|v vs]|]; [| destruct (paths (this w)) as [[|s ss]|] |];
      simpl; (split; [split; [discriminate|intro H; discriminate H]|]);
      (split; [|reflexivity]); intro e; split;
      try (intro H; injection H as <-; split; [reflexivity|]; split; [discriminate|]; tauto);
      try (intros (-> & _ & _); reflexivity);
      try discriminate.
    intros (_ & _ & [H|[H|[H|H]]]); discriminate H.
  - simpl. split; [split; reflexivity|]. split; [|reflexivity].
    intro e. split; [discriminate|]. intros (_ & H & _). now contradiction H.
Qed.

(** X11.  [_getPointByIndex] goes round the polygon: an index from 0 on and
    the same index plus the number of vertices give the same answer.  An
    index below zero that is not a multiple of the number of vertices reads
    no vertex, and the property access throws a type error. *)
Theorem getPointByIndex_wraps (w : World) vertices (index : Z) :
  raw (this w) = Some vertices ->
  vertices <> [] ->
  ((0 <= index)%Z ->
   _getPointByIndex (index + Z.of_nat (List.length vertices)) w
   = _getPointByIndex index w) /\
  ((index < 0)%Z -> Z.rem index (Z.of_nat (List.length vertices)) <> 0%Z ->
   _getPointByIndex index w = (Throw TypeError, w)).
Proof.
  intros Hraw Hne.
  assert (Hlen : (0 < Z.of_nat (List.length vertices))%Z).
  { destruct vertices; [contradiction | simpl; lia]. }
  split.
  - intro Hi. unfold _getPointByIndex, bind, get. rewrite Hraw.
    destruct vertices as [|v vs]; [contradiction|].
    rewrite !Z.rem_mod_nonneg by lia.
    replace (index + Z.of_nat (List.length (v :: vs)))%Z
      with (index + 1 * Z.of_nat (List.length (v :: vs)))%Z by lia.
    rewrite Z_mod_plus_full. reflexivity.
  - intros Hneg Hrem. unfold _getPointByIndex, bind, get. rewrite Hraw.
    destruct vertices as [|v vs]; [contradiction|].
    pose proof (Z.rem_nonpos index (Z.of_nat (List.length (v :: vs)))) as Hnp.
    unfold array_get.
    destruct (_ <? 0)%Z eqn:Hlt; [reflexivity|].
    apply Z.ltb_ge in Hlt. lia.
Qed.

End SamplerEdges.

Lemma particlePosition_one_per_point_witness :
  exists vertex,
    nth_error square
      (Z.to_nat (particles_count
                   (container (square_world PolygonMaskType.inline
                                 PolygonMaskInlineArrangement.perPoint))
                 mod Z.of_nat (List.length square)))
    = Some vertex /\
    forall fuel,
      @particlePosition sample_host (S fuel) None
        (square_world PolygonMaskType.inline PolygonMaskInlineArrangement.perPoint)
      = (Ok (Some (Copy vertex)),
         square_world PolygonMaskType.inline PolygonMaskInlineArrangement.perPoint).
Proof.
  apply (@particlePosition_one_per_point sample_host
           (square_world PolygonMaskType.inline PolygonMaskInlineArrangement.perPoint)
           (sample_options PolygonMaskType.inline PolygonMaskInlineArrangement.perPoint)
           square).
  - reflexivity.
  - reflexivity.
  - reflexivity.
  - right; reflexivity.
  - reflexivity.
  - discriminate.
Defined.

Lemma getRandomPoint_picks_vertex_witness :
  exists vertex,
    In vertex square /\
    @_getRandomPoint still_host
      (square_world PolygonMaskType.inline PolygonMaskInlineArrangement.randomPoint)
    = (Ok vertex,
       set_draws 1
         (square_world PolygonMaskType.inline PolygonMaskInlineArrangement.randomPoint)).
Proof.
  apply (@getRandomPoint_picks_vertex still_host
           (square_world PolygonMaskType.inline PolygonMaskInlineArrangement.randomPoint)
           square).
  - reflexivity.
  - discriminate.
  - simpl. lra.
  - simpl. lra.
Defined.

Lemma getRandomPointByLength_whole_units_witness :
  let w := square_world PolygonMaskType.inline PolygonMaskInlineArrangement.randomLength in
  let segments := [ {| ISvgPath.element := square_element; ISvgPath.length := 40;
                       ISvgPath.path2d := None |} ] in
  exists path k,
    In path segments /\ (1 <= k)%Z /\ inject_Z k <= ISvgPath.length path + 1 /\
    @_getRandomPointByLength still_host w
    = (Ok (Some {| x := x (getPointAtLength (ISvgPath.element path) (inject_Z k)) * 1 + 0;
                   y := y (getPointAtLength (ISvgPath.element path) (inject_Z k)) * 1 + 0 |}),
       set_draws 2 w).
Proof.
  apply (@getRandomPointByLength_whole_units still_host
           (square_world PolygonMaskType.inline PolygonMaskInlineArrangement.randomLength)
           (sample_options PolygonMaskType.inline PolygonMaskInlineArrangement.randomLength)
           (pt 0 0) [pt 10 0; pt 10 10; pt 0 10]
           [ {| ISvgPath.element := square_element; ISvgPath.length := 40;
                ISvgPath.path2d := None |} ]).
  - reflexivity.
  - reflexivity.
  - reflexivity.
  - discriminate.
  - intros s [<-|[]]. simpl. lra.
  - simpl. lra.
  - simpl. lra.
  - simpl. lra.
  - simpl. lra.
Defined.

Lemma equidistant_beyond_total_witness :
  _getEquidistantPointByIndex 5
    (square_world PolygonMaskType.inline PolygonMaskInlineArrangement.equidistant)
  = (Ok (Some {| x := 0 * 1 + 0; y := 0 * 1 + 0 |}),
     square_world PolygonMaskType.inline PolygonMaskInlineArrangement.equidistant).
Proof.
  apply (equidistant_beyond_total
           (square_world PolygonMaskType.inline PolygonMaskInlineArrangement.equidistant)
           (sample_options PolygonMaskType.inline PolygonMaskInlineArrangement.equidistant)
           (pt 0 0) [pt 10 0; pt 10 10; pt 0 10]
           [ {| ISvgPath.element := square_element; ISvgPath.length := 40;
                ISvgPath.path2d := None |} ] 5).
  - reflexivity.
  - reflexivity.
  - reflexivity.
  - discriminate.
  - intros s [<-|[]]. simpl. lra.
  - reflexivity.
Defined.

Lemma getPointByIndex_wraps_witness :
  ((0 <= 2)%Z ->
   _getPointByIndex (2 + Z.of_nat (List.length square))
     (square_world PolygonMaskType.inline PolygonMaskInlineArrangement.onePerPoint)
   = _getPointByIndex 2
       (square_world PolygonMaskType.inline PolygonMaskInlineArrangement.onePerPoint)) /\
  ((2 < 0)%Z -> Z.rem 2 (Z.of_nat (List.length square)) <> 0%Z ->
   _getPointByIndex 2
     (square_world PolygonMaskType.inline PolygonMaskInlineArrangement.onePerPoint)
   = (Throw TypeError,
      square_world PolygonMaskType.inline PolygonMaskInlineArrangement.onePerPoint)).
Proof.
  apply (getPointByIndex_wraps
           (square_world PolygonMaskType.inline PolygonMaskInlineArrangement.onePerPoint)
           square 2).
  - reflexivity.
  - discriminate.
Defined.

(** ** The bounce, case by case *)

Section BounceCases.

Context {E : Externals}.

Lemma polygonBounce_loop_scan (raw : list ICoordinates) (pos : ICoordinates)
      (radius : Q) (v : ICoordinates) :
  forall rest pre prev j closest dx0 dy0,
    raw = pre ++ rest ->
    nth_error raw j = Some prev ->
    polygonBounce_loop raw pos radius v (List.length rest) (List.length pre) j
      closest dx0 dy0
    = Ok (scan_edges pos radius v (edges_from prev rest) (Passed closest dx0 dy0)).
Proof.
  induction rest as [|p rest IH]; intros pre prev j closest dx0 dy0 Hraw Hj.
  - reflexivity.
  - simpl.
    assert (Hi : nth_error raw (List.length pre) = Some p).
    { rewrite Hraw, nth_error_app2 by lia. now rewrite Nat.sub_diag. }
    rewrite Hi, Hj. unfold within_radius. cbn [fst snd].
    destruct (dist_ltb _ radius); [reflexivity|].
    replace (S (List.length pre)) with (List.length (pre ++ [p]))
      by (rewrite length_app; simpl; lia).
    rewrite (IH (pre ++ [p]) p (List.length pre)).
    + reflexivity.
    + now rewrite <- app_assoc.
    + exact Hi.
Qed.

Lemma polygonBounce_loop_whole (vertices : list ICoordinates) (pos : ICoordinates)
      (radius : Q) (v : ICoordinates) :
  polygonBounce_loop vertices pos radius v (List.length vertices) 0
    (List.length vertices - 1) None None None
  = Ok (scan_edges pos radius v (closed_edges vertices) (Passed None None None)).
Proof.
  destruct vertices as [|p0 rest] eqn:Hv; [reflexivity|].
  rewrite <- Hv in *.
  assert (Hne : vertices <> []) by (rewrite Hv; discriminate).
  replace (closed_edges vertices) with (edges_from (last vertices p0) vertices)
    by (rewrite Hv; reflexivity).
  apply (polygonBounce_loop_scan vertices pos radius v vertices [] (last vertices p0)).
  - reflexivity.
  - now apply nth_error_last.
Qed.

(** How a scan ends: on the first edge within the radius if there is one,
    and otherwise with the closest point of the last edge, if any. *)
Lemma scan_edges_ends (pos : ICoordinates) (radius : Q) (v : ICoordinates) :
  forall edges acc,
    (exists before edge after,
        edges = before ++ edge :: after /\
        Forall (fun e => within_radius pos radius e = false) before /\
        within_radius pos radius edge = true /\
        scan_edges pos radius v edges acc
        = Bounced (segmentBounce (fst edge) (snd edge) v)) \/
    (Forall (fun e => within_radius pos radius e = false) edges /\
     scan_edges pos radius v edges acc = fold_left (pass_edge pos) edges acc).
Proof.
  induction edges as [|edge rest IH]; intro acc.
  - right. split; [constructor | reflexivity].
  - simpl. destruct (within_radius pos radius edge) eqn:Hnear.
    + left. exists [], edge, rest. repeat split; [constructor | exact Hnear].
    + destruct (IH (pass_edge pos acc edge))
        as [(before & e & after & -> & Hfar & Hn & Hscan)|[Hfar Hscan]].
      * left. exists (edge :: before), e, after. repeat split;
          [constructor; assumption | exact Hn | exact Hscan].
      * right. split; [constructor; assumption | exact Hscan].
Qed.

Lemma fold_pass_edge_last (pos : ICoordinates) edges edge acc :
  fold_left (pass_edge pos) (edges ++ [edge]) acc
  = Passed (Some (calcClosestPtOnSegment (fst edge) (snd edge) pos))
      (Some (dx (getDistances pos (calcClosestPtOnSegment (fst edge) (snd edge) pos))))
      (Some (dy (getDistances pos (calcClosestPtOnSegment (fst edge) (snd edge) pos)))).
Proof. rewrite fold_left_app. reflexivity. Qed.

Lemma closed_edges_nil (vertices : list ICoordinates) :
  closed_edges vertices = [] <-> vertices = [].
Proof.
  destruct vertices as [|p0 rest]; [tauto|].
  split; [|discriminate]. unfold closed_edges.
  now destruct rest.
Qed.

(** [_polygonBounce] towards the top, on a loaded polygon, with the mask
    constraining positions. *)
Lemma polygonBounce_constrained (w : World) options vertices particle :
  polygon (container w) = Some options ->
  enable options = true ->
  type options = PolygonMaskType.inside \/ type options = PolygonMaskType.outside ->
  raw (this w) = Some vertices ->
  _polygonBounce particle OutModeDirection.top w
  = (Ok (match scan_edges (getPosition particle) (getRadius particle) (velocity particle)
                 (closed_edges vertices) (Passed None None None) with
         | Bounced v => (true, set_velocity v particle)
         | Passed (Some closest) (Some _) (Some _) =>
             if passes options vertices (getPosition particle)
             then (false, particle)
             else (true, set_position (snap_back particle closest) particle)
         | Passed _ _ _ => (false, particle)
         end), w).
Proof.
  intros Ho Hen Hty Hraw.
  pose proof (checkInsidePolygon_at w options vertices (Some (getPosition particle))
                Ho Hen Hty Hraw) as Hcheck.
  cbn [test_point after_test] in Hcheck.
  unfold _polygonBounce, bind at 1, get. rewrite Hraw, Ho, Hen. cbn [negb]. cbv iota.
  destruct Hty as [Hty|Hty]; rewrite Hty; unfold bind at 1, lift;
    rewrite polygonBounce_loop_whole;
    (destruct (scan_edges _ _ _ _ _) as [v|[closest|] [dx0|] [dy0|]]; try reflexivity);
    unfold bind; rewrite Hcheck; unfold passes, inside_flag;
    destruct (masked _ _); reflexivity.
Qed.

(** X12.  [_polygonBounce] always answers: it throws nothing, and it leaves
    the instance, the container and the logs as they were.  An answer of
    [false] leaves the particle untouched; an answer of [true] is given only
    towards the top, with a raw polygon present and the mask enabled with a
    type other than [none]. *)
Theorem polygonBounce_always_answers (w : World) particle direction :
  exists handled particle',
    _polygonBounce particle direction w = (Ok (handled, particle'), w) /\
    (handled = false -> particle' = particle) /\
    (handled = true ->
     direction = OutModeDirection.top /\ raw (this w) <> None /\
     exists options, polygon (container w) = Some options /\ enable options = true /\
                     type options <> PolygonMaskType.none).
Proof.
  assert (Hfalse : forall r, r = (Ok (false, particle), w) ->
            exists handled particle',
              r = (Ok (handled, particle'), w) /\
              (handled = false -> particle' = particle) /\
              (handled = true ->
               direction = OutModeDirection.top /\ raw (this w) <> None /\
               exists options, polygon (container w) = Some options /\
                               enable options = true /\
                               type options <> PolygonMaskType.none)).
  { intros r ->. exists false, particle. repeat split; discriminate. }
  destruct (raw (this w)) as [vertices|] eqn:Hraw;
    [|apply Hfalse; unfold _polygonBounce, bind, get; now rewrite Hraw].
  destruct (polygon (container w)) as [options|] eqn:Ho;
    [|apply Hfalse; unfold _polygonBounce, bind, get; now rewrite Hraw, Ho].
  destruct direction;
    try (apply Hfalse; unfold _polygonBounce, bind, get; now rewrite Hraw, Ho).
  destruct (enable options) eqn:Hen;
    [|apply Hfalse; unfold _polygonBounce, bind, get; now rewrite Hraw, Ho, Hen].
  assert (Htrue : forall r particle' ty, type options = ty -> ty <> PolygonMaskType.none ->
            r = (Ok (true, particle'), w) ->
            exists handled particle',
              r = (Ok (handled, particle'), w) /\
              (handled = false -> particle' = particle) /\
              (handled = true ->
               OutModeDirection.top = OutModeDirection.top /\ Some vertices <> None /\
               exists options0, Some options = Some options0 /\
                               enable options0 = true /\
                               type options0 <> PolygonMaskType.none)).
  { intros r particle' ty Hty Hnone ->. exists true, particle'.
    repeat split; try assumption; try discriminate.
    exists options. repeat split; [exact Hen | now rewrite Hty]. }
  destruct (type options) eqn:Hty.
  - (* inline *)
    unfold _polygonBounce, bind, get. rewrite Hraw, Ho, Hen, Hty. cbn [negb]. cbv iota.
    destruct (initialPosition particle) as [initial|] eqn:Hinit;
      [|apply Hfalse; reflexivity].
    destruct (dist_gtb _ _); [|apply Hfalse; reflexivity].
    eapply (Htrue _ _ PolygonMaskType.inline eq_refl); try reflexivity; discriminate.
  - rewrite (polygonBounce_constrained w options vertices particle Ho Hen
               (or_introl Hty) Hraw).
    destruct (scan_edges _ _ _ _ _) as [v|[closest|] [dx0|] [dy0|]];
      try (apply Hfalse; reflexivity);
      [|destruct (passes _ _ _); [apply Hfalse; reflexivity|]];
      eapply (Htrue _ _ PolygonMaskType.inside eq_refl); try reflexivity; discriminate.
  - rewrite (polygonBounce_constrained w options vertices particle Ho Hen
               (or_intror Hty) Hraw).
    destruct (scan_edges _ _ _ _ _) as [v|[closest|] [dx0|] [dy0|]];
      try (apply Hfalse; reflexivity);
      [|destruct (passes _ _ _); [apply Hfalse; reflexivity|]];
      eapply (Htrue _ _ PolygonMaskType.outside eq_refl); try reflexivity; discriminate.
  - apply Hfalse. unfold _polygonBounce, bind, get. now rewrite Hraw, Ho, Hen, Hty.
Qed.

End BounceCases.

Section BounceOutcomes.

Context {E : Externals}.

(** X13.  Towards the top, with the mask constraining positions, the
    particle bounces on the first edge, in scan order, whose closest point
    lies within its radius: the velocity becomes what [segmentBounce] makes of
    it on that edge, the position is not touched, the edges after it are not
    looked at, and the answer is [true]. *)
Theorem polygonBounce_first_edge_within (w : World) options vertices before edge after
        particle :
  polygon (container w) = Some options ->
  enable options = true ->
  type options = PolygonMaskType.inside \/ type options = PolygonMaskType.outside ->
  raw (this w) = Some vertices ->
  closed_edges vertices = before ++ edge :: after ->
  (forall e, In e before ->
     within_radius (getPosition particle) (getRadius particle) e = false) ->
  within_radius (getPosition particle) (getRadius particle) edge = true ->
  particleBounce particle OutModeDirection.top w
  = (Ok (true, set_velocity (segmentBounce (fst edge) (snd edge) (velocity particle))
                 particle), w).
Proof.
  intros Ho Hen Hty Hraw Hedges Hfar Hnear.
  unfold particleBounce.
  rewrite (polygonBounce_constrained w options vertices particle Ho Hen Hty Hraw), Hedges.
  assert (Hscan : forall acc,
            scan_edges (getPosition particle) (getRadius particle) (velocity particle)
              (before ++ edge :: after) acc
            = Bounced (segmentBounce (fst edge) (snd edge) (velocity particle))).
  { clear Hedges. induction before as [|e before IH]; intro acc; simpl.
    - now rewrite Hnear.
    - rewrite (Hfar e) by (now left). apply IH. intros e' He'. apply Hfar. now right. }
  now rewrite Hscan.
Qed.

(** X14.  With type [inline], towards the top, with a raw polygon present
    and an initial position recorded, the particle is pulled back exactly
    when it has drifted further than the move radius from its initial
    position.  The velocity then becomes (vy/2 - vx, (vy/2 - vx)/2 - vy), the
    second component being computed from the first one already replaced,
    that is -vx/2 - 3vy/4; the position is not touched. *)
Theorem polygonBounce_inline_leash (w : World) options vertices initial particle :
  polygon (container w) = Some options ->
  enable options = true ->
  type options = PolygonMaskType.inline ->
  raw (this w) = Some vertices ->
  initialPosition particle = Some initial ->
  let drifted := dist_gtb (distance (getDistances initial (getPosition particle)))
                          (_moveRadius (this w)) in
  particleBounce particle OutModeDirection.top w
  = (Ok (if drifted then (true, set_velocity (leashed (velocity particle)) particle)
         else (false, particle)), w) /\
  x (leashed (velocity particle)) == y (velocity particle) / 2 - x (velocity particle) /\
  y (leashed (velocity particle))
  == - (x (velocity particle) / 2) - (3 # 4) * y (velocity particle).
Proof.
  intros Ho Hen Hty Hraw Hinit drifted. split; [|split].
  - unfold particleBounce, _polygonBounce, bind, get.
    rewrite Hraw, Ho, Hen, Hty, Hinit. cbn [negb]. cbv iota.
    unfold getDistance. fold drifted. destruct drifted; reflexivity.
  - reflexivity.
  - unfold leashed. simpl. field.
Qed.

(** X15.  Towards the top, with the mask constraining positions and a
    polygon loaded, the bounce is handled exactly when some edge has its
    closest point within the radius of the particle, or the polygon has a
    vertex and the particle fails the containment test of the mask.  On an
    empty polygon nothing is ever handled. *)
Theorem polygonBounce_handled_iff (w : World) options vertices particle :
  polygon (container w) = Some options ->
  enable options = true ->
  type options = PolygonMaskType.inside \/ type options = PolygonMaskType.outside ->
  raw (this w) = Some vertices ->
  (exists particle', particleBounce particle OutModeDirection.top w
                     = (Ok (true, particle'), w))
  <-> (exists edge, In edge (closed_edges vertices) /\
                    within_radius (getPosition particle) (getRadius particle) edge = true)
      \/ (vertices <> [] /\ passes options vertices (getPosition particle) = false).
Proof.
  intros Ho Hen Hty Hraw.
  unfold particleBounce.
  rewrite (polygonBounce_constrained w options vertices particle Ho Hen Hty Hraw).
  set (near_some := exists edge, In edge (closed_edges vertices) /\
                      within_radius (getPosition particle) (getRadius particle) edge = true).
  destruct (scan_edges_ends (getPosition particle) (getRadius particle) (velocity particle)
              (closed_edges vertices) (Passed None None None))
    as [(before & edge & after & Hedges & _ & Hnear & Hscan)|[Hfar Hscan]];
    rewrite Hscan.
  - split; [|eauto]. intros _. left. exists edge. split; [|exact Hnear].
    rewrite Hedges. apply in_or_app. right. now left.
  - assert (Hnone : ~ near_some).
    { intros (edge & Hin & Hnear). rewrite Forall_forall in Hfar.
      rewrite (Hfar edge Hin) in Hnear. discriminate. }
    clearbody near_some.
    destruct (rev_case (closed_edges vertices)) as [Hnil | (front & edge & Hlast)].
    + rewrite Hnil. simpl. apply closed_edges_nil in Hnil. split.
      * intros (particle' & H). discriminate H.
      * intros [H|[H _]]; contradiction.
    + rewrite Hlast, fold_pass_edge_last.
      assert (Hne : vertices <> []).
      { intro Hv. apply closed_edges_nil in Hv. rewrite Hv in Hlast.
        now destruct front. }
      destruct (passes options vertices (getPosition particle)); split.
      * intros (particle' & H). discriminate H.
      * intros [H|[_ H]]; [contradiction | discriminate H].
      * intros _. right. split; [exact Hne | reflexivity].
      * intros _. eauto.
Qed.

End BounceOutcomes.

Lemma polygonBounce_first_edge_within_witness :
  @particleBounce sample_host (sample_particle (pt 5 (1 # 2)) 1) OutModeDirection.top
    (square_world PolygonMaskType.inside PolygonMaskInlineArrangement.onePerPoint)
  = (Ok (true,
         set_velocity (reflectVelocity (pt 10 0) (pt 0 0) (pt 1 (-1)))
           (sample_particle (pt 5 (1 # 2)) 1)),
     square_world PolygonMaskType.inside PolygonMaskInlineArrangement.onePerPoint).
Proof.
  apply (@polygonBounce_first_edge_within sample_host
           (square_world PolygonMaskType.inside PolygonMaskInlineArrangement.onePerPoint)
           (sample_options PolygonMaskType.inside PolygonMaskInlineArrangement.onePerPoint)
           square
           [(pt 0 0, pt 0 10)] (pt 10 0, pt 0 0) [(pt 10 10, pt 10 0); (pt 0 10, pt 10 10)]
           (sample_particle (pt 5 (1 # 2)) 1)).
  - reflexivity.
  - reflexivity.
  - left; reflexivity.
  - reflexivity.
  - reflexivity.
  - intros e [<-|[]]. reflexivity.
  - reflexivity.
Defined.

Lemma polygonBounce_inline_leash_witness :
  let w := square_world PolygonMaskType.inline PolygonMaskInlineArrangement.onePerPoint in
  let particle := {| particle_position := pt 30 40; velocity := pt 2 4;
                     initialPosition := Some (pt 0 0);
                     getPosition := pt 30 40; getRadius := 1 |} in
  let drifted := dist_gtb (distance (vectorDistances (pt 0 0) (pt 30 40))) 10 in
  @particleBounce sample_host particle OutModeDirection.top w
  = (Ok (if drifted then (true, set_velocity (leashed (pt 2 4)) particle)
         else (false, particle)), w) /\
  x (leashed (pt 2 4)) == 4 / 2 - 2 /\
  y (leashed (pt 2 4)) == - (2 / 2) - (3 # 4) * 4.
Proof.
  apply (@polygonBounce_inline_leash sample_host
           (square_world PolygonMaskType.inline PolygonMaskInlineArrangement.onePerPoint)
           (sample_options PolygonMaskType.inline PolygonMaskInlineArrangement.onePerPoint)
           square (pt 0 0)
           {| particle_position := pt 30 40; velocity := pt 2 4;
              initialPosition := Some (pt 0 0);
              getPosition := pt 30 40; getRadius := 1 |}); reflexivity.
Defined.

Lemma polygonBounce_handled_iff_witness :
  let w := square_world PolygonMaskType.inside PolygonMaskInlineArrangement.onePerPoint in
  let particle := sample_particle (pt 20 5) 1 in
  (exists particle', @particleBounce sample_host particle OutModeDirection.top w
                     = (Ok (true, particle'), w))
  <-> (exists edge, In edge (closed_edges square) /\
                    @within_radius sample_host (pt 20 5) 1 edge = true)
      \/ (square <> [] /\
          passes (sample_options PolygonMaskType.inside
                    PolygonMaskInlineArrangement.onePerPoint) square (pt 20 5) = false).
Proof.
  apply (@polygonBounce_handled_iff sample_host
           (square_world PolygonMaskType.inside PolygonMaskInlineArrangement.onePerPoint)
           (sample_options PolygonMaskType.inside PolygonMaskInlineArrangement.onePerPoint)
           square (sample_particle (pt 20 5) 1)).
  - reflexivity.
  - reflexivity.
  - left; reflexivity.
  - reflexivity.
Defined.

(** ** Loading without the cache *)

Section FreshLoad.

Context {E : Externals}.

Lemma parseSvgPath_fresh (w : World) options xml force :
  polygon (container w) = Some options ->
  paths (this w) = None \/ forceDownload force = true ->
  _parseSvgPath xml force w
  = match doc_svgs (parseFromString xml) with
    | [] => (Throw TypeError, w)
    | svg :: _ =>
        (Ok (Some (parsed_points options (container w) (parseFromString xml) svg (this w))),
         set_this (parsed_instance options (container w) (parseFromString xml) svg (this w))
           w)
    end.
Proof.
  intros Ho Hfresh. unfold _parseSvgPath, bind, get, put, ret, throw. rewrite Ho.
  assert (Hgo : match paths (this w), forceDownload force with
                | Some _, false => false
                | _, _ => true
                end = true).
  { destruct Hfresh as [-> | ->]; [reflexivity | now destruct (paths (this w))]. }
  destruct (paths (this w)); destruct (forceDownload force); try discriminate Hgo;
    destruct (doc_svgs (parseFromString xml)); reflexivity.
Qed.

Lemma downloadSvgPath_fresh (w : World) options u force :
  polygon (container w) = Some options ->
  truthy (Some u) = Some u ->
  paths (this w) = None \/ forceDownload force = true ->
  _downloadSvgPath (Some u) force w
  = match server u with
    | None => (Throw NetworkError, fetching u w)
    | Some req =>
        if ok req then _parseSvgPath (Text (text req)) force (fetching u w)
        else (Throw DownloadFailed, fetching u w)
    end.
Proof.
  intros Ho Hu Hfresh. destruct u as [|c u']; [discriminate|]. clear Hu.
  unfold _downloadSvgPath, bind at 1, get. rewrite Ho. simpl.
  assert (Hgo : match paths (this w), forceDownload force with
                | Some _, false => false
                | _, _ => true
                end = true).
  { destruct Hfresh as [-> | ->]; [reflexivity | now destruct (paths (this w))]. }
  unfold bind, fetch, fetching.
  destruct (paths (this w)); destruct (forceDownload force); try discriminate Hgo;
    (destruct (server (String c u')) as [req|]; [destruct (ok req)|]; reflexivity).
Qed.

(** X16.  A forced load goes past the cache: with [force] set (or nothing
    cached), a URL configured, the server answering and the document holding
    an [svg] element, [_downloadSvgPath] fetches the URL once more and parses
    again whatever the instance held: the paths are replaced by the freshly
    parsed ones, the dimension and the offset are recomputed from the
    current canvas size, and the freshly flattened points are returned.  The
    [raw] field itself is left to the caller. *)
Theorem forced_download_refetches (w : World) options u req svg others force :
  polygon (container w) = Some options ->
  truthy (Some u) = Some u ->
  paths (this w) = None \/ forceDownload force = true ->
  server u = Some req ->
  ok req = true ->
  doc_svgs (parseFromString (Text (text req))) = svg :: others ->
  let doc := parseFromString (Text (text req)) in
  exists w',
    _downloadSvgPath (Some u) force w
    = (Ok (Some (parsed_points options (container w) doc svg (this w))), w') /\
    fetched w' = fetched w ++ [u] /\
    paths (this w') = Some (fresh_paths doc svg) /\
    dimension (this w') = fresh_dimension svg (_scale (this w)) /\
    offset (this w')
    = Some (fresh_offset options (canvas_size (container w))
              (fresh_dimension svg (_scale (this w)))) /\
    raw (this w') = raw (this w) /\
    container w' = container w /\ dispatched w' = dispatched w.
Proof.
  intros Ho Hu Hfresh Hserver Hok Hdoc doc.
  rewrite (downloadSvgPath_fresh w options u force Ho Hu Hfresh), Hserver, Hok.
  rewrite (parseSvgPath_fresh (fetching u w) options _ force Ho Hfresh), Hdoc.
  eexists. split; [reflexivity|]. repeat split.
Qed.

(** X17.  A download that fails leaves the mask as it was.  With a URL
    configured and nothing to answer from the cache, when the request fails or
    the response is not a success, [_initRawData] throws (a network error,
    or the download error) after that one fetch: the instance keeps its raw
    polygon, paths, offset and dimension, and no load event is announced. *)
Theorem failed_download_keeps_mask (w : World) options u force :
  polygon (container w) = Some options ->
  truthy (url options) = Some u ->
  paths (this w) = None \/ forceDownload force = true ->
  server u = None \/ (exists req, server u = Some req /\ ok req = false) ->
  exists e,
    (e = NetworkError \/ e = DownloadFailed) /\
    _initRawData force w = (Throw e, fetching u w) /\
    this (fetching u w) = this w /\ dispatched (fetching u w) = dispatched w.
Proof.
  intros Ho Hu Hfresh Hserver.
  assert (Htu : truthy (Some u) = Some u).
  { destruct (url options) as [[|c s]|]; simpl in Hu; try discriminate.
    now injection Hu as <-. }
  rewrite initRawData_source, Ho. unfold bind at 1, load_source. rewrite Hu.
  unfold bind at 1. rewrite (downloadSvgPath_fresh w options u force Ho Htu Hfresh).
  destruct Hserver as [Hs|(req & Hs & Hok)]; rewrite Hs; [|rewrite Hok].
  - exists NetworkError. repeat split. now left.
  - exists DownloadFailed. repeat split. now right.
Qed.

(** X18.  Inline data whose text holds no [svg] element cannot be loaded:
    with no URL configured and nothing to answer from the cache,
    [_initRawData] throws a type error and leaves the world exactly as it
    was; the cache is not even emptied. *)
Theorem inline_data_without_svg (w : World) options xml force :
  polygon (container w) = Some options ->
  truthy (url options) = None ->
  data_text (data options) = Some xml ->
  paths (this w) = None \/ forceDownload force = true ->
  doc_svgs (parseFromString xml) = [] ->
  _initRawData force w = (Throw TypeError, w).
Proof.
  intros Ho Hu Hdata Hfresh Hdoc.
  rewrite initRawData_source, Ho. unfold bind at 1, load_source. rewrite Hu.
  destruct (data options) as [[[|c svg]|d]|]; simpl in Hdata; try discriminate;
    injection Hdata as <-; unfold bind at 1;
    rewrite (parseSvgPath_fresh w options _ force Ho Hfresh), Hdoc; reflexivity.
Qed.

End FreshLoad.

(** ** Stopping and loading again *)

Section Reload.

Context {E : Externals}.

Lemma set_fetched_eta (w : World) : set_fetched (fetched w ++ []) w = w.
Proof. rewrite app_nil_r. now destruct w. Qed.

Lemma truthy_idem (s : option string) (u : string) :
  truthy s = Some u -> truthy (Some u) = Some u.
Proof.
  destruct s as [[|c s]|]; simpl; try discriminate. now intros [= <-].
Qed.

(** A source that can be loaded is loaded, when nothing is cached. *)
Lemma load_source_loads (w : World) options doc svg urls force :
  polygon (container w) = Some options ->
  paths (this w) = None \/ forceDownload force = true ->
  loads options doc svg urls ->
  load_source options force w = (Ok tt, loaded_world options doc svg urls w).
Proof.
  intros Ho Hfresh [[others Hsvg] [(u & req & Hu & Hserver & Hok & -> & ->)
                                  |(xml & Hu & Hdata & -> & ->)]];
    unfold load_source; rewrite Hu.
  - unfold bind.
    rewrite (downloadSvgPath_fresh w options u force Ho (truthy_idem _ _ Hu) Hfresh).
    rewrite Hserver, Hok.
    rewrite (parseSvgPath_fresh (fetching u w) options _ force Ho Hfresh), Hsvg.
    reflexivity.
  - assert (Hparse : (let* r := _parseSvgPath xml force in assign_raw r) w
                     = (Ok tt, loaded_world options (parseFromString xml) svg [] w)).
    { unfold bind. rewrite (parseSvgPath_fresh w options xml force Ho Hfresh), Hsvg.
      unfold assign_raw, loaded_world. rewrite set_fetched_eta. reflexivity. }
    destruct (data options) as [[[|c s]|d]|]; simpl in Hdata; try discriminate;
      injection Hdata as <-; exact Hparse.
Qed.

(** A load that succeeded with nothing cached and a source configured found
    a source that can be loaded. *)
Lemma load_source_succeeded (w wa : World) options force :
  polygon (container w) = Some options ->
  paths (this w) = None \/ forceDownload force = true ->
  ~ no_source options ->
  load_source options force w = (Ok tt, wa) ->
  exists doc svg urls, loads options doc svg urls.
Proof.
  intros Ho Hfresh Hsource. unfold load_source.
  destruct (truthy (url options)) as [u|] eqn:Hu.
  - unfold bind.
    rewrite (downloadSvgPath_fresh w options u force Ho (truthy_idem _ _ Hu) Hfresh).
    destruct (server u) as [req|] eqn:Hserver; [|discriminate].
    destruct (ok req) eqn:Hok; [|discriminate].
    rewrite (parseSvgPath_fresh (fetching u w) options _ force Ho Hfresh).
    destruct (doc_svgs (parseFromString (Text (text req)))) as [|svg others] eqn:Hsvg;
      [discriminate|].
    intros _. exists (parseFromString (Text (text req))), svg, [u].
    split; [eauto|]. left. exists u, req. repeat split; assumption.
  - destruct (data_text (data options)) as [xml|] eqn:Hdata.
    + assert (Hparse : (let* r := _parseSvgPath xml force in assign_raw r) w = (Ok tt, wa) ->
                       exists doc svg urls, loads options doc svg urls).
      { unfold bind. rewrite (parseSvgPath_fresh w options xml force Ho Hfresh).
        destruct (doc_svgs (parseFromString xml)) as [|svg others] eqn:Hsvg;
          [discriminate|].
        intros _. exists (parseFromString xml), svg, [].
        split; [eauto|]. right. exists xml. repeat split; assumption. }
      destruct (data options) as [[[|c s]|d]|]; simpl in Hdata; try discriminate;
        injection Hdata as <-; exact Hparse.
    + exfalso. apply Hsource. split; [exact Hu|].
      destruct (data options) as [[[|c s]|d]|]; simpl in Hdata; try discriminate; tauto.
Qed.

(** [_createPath2D] reads and writes the paths of the instance only. *)
Lemma createPath2D_frame (w w2 : World) :
  this w2 = this w -> container w2 = container w ->
  _createPath2D w2
  = (fst (_createPath2D w), set_this (this (snd (_createPath2D w))) w2) /\
  this (snd (_createPath2D w)) = set_paths (paths (this (snd (_createPath2D w)))) (this w) /\
  container (snd (_createPath2D w)) = container w /\
  fetched (snd (_createPath2D w)) = fetched w /\
  dispatched (snd (_createPath2D w)) = dispatched w.
Proof.
  intros Hthis Hcont. unfold _createPath2D, bind, get. rewrite Hthis, Hcont.
  destruct (polygon (container w)) as [options|].
  - destruct (paths (this w)) as [[|p ps]|] eqn:Hp.
    + simpl. rewrite <- Hthis, set_this_eta, Hthis, (set_paths_eta _ _ eq_refl).
      repeat split.
    + destruct (createPath2D_loop _ _ [] (p :: ps)) as [r out].
      unfold put, lift. simpl. repeat split.
    + simpl. rewrite <- Hthis, set_this_eta, Hthis, (set_paths_eta _ _ eq_refl).
      repeat split.
  - simpl. rewrite <- Hthis, set_this_eta, Hthis, (set_paths_eta _ _ eq_refl).
    repeat split.
Qed.

Lemma loads_urls options doc svg urls :
  loads options doc svg urls ->
  urls = match truthy (url options) with Some u => [u] | None => [] end.
Proof.
  intros [_ [(u & req & -> & _ & _ & _ & ->)|(xml & -> & _ & _ & ->)]]; reflexivity.
Qed.


End Reload.


Lemma forced_download_refetches_witness :
  let w := square_world PolygonMaskType.inside PolygonMaskInlineArrangement.onePerPoint in
  let options := sample_options PolygonMaskType.inside
                   PolygonMaskInlineArrangement.onePerPoint in
  let svg := {| attr_width := Some 200; attr_height := Some 100;
                svg_paths := [square_element] |} in
  exists w',
    @_downloadSvgPath sample_host (Some "https://particles.js.org/square.svg"%string)
      (Some true) w
    = (Ok (Some (@parsed_points sample_host options (container w) square_document svg
                   (this w))), w') /\
    fetched w' = fetched w ++ ["https://particles.js.org/square.svg"%string] /\
    paths (this w') = Some (fresh_paths square_document svg) /\
    dimension (this w') = fresh_dimension svg 1 /\
    offset (this w')
    = Some (fresh_offset options {| width := 800; height := 600 |} (fresh_dimension svg 1)) /\
    raw (this w') = raw (this w) /\
    container w' = container w /\ dispatched w' = dispatched w.
Proof.
  apply (@forced_download_refetches sample_host
           (square_world PolygonMaskType.inside PolygonMaskInlineArrangement.onePerPoint)
           (sample_options PolygonMaskType.inside PolygonMaskInlineArrangement.onePerPoint)
           "https://particles.js.org/square.svg"%string
           {| ok := true; text := "<svg/>"%string |}
           {| attr_width := Some 200; attr_height := Some 100;
              svg_paths := [square_element] |} [] (Some true)).
  - reflexivity.
  - reflexivity.
  - right; reflexivity.
  - reflexivity.
  - reflexivity.
  - reflexivity.
Defined.

Lemma failed_download_keeps_mask_witness :
  let w := square_world PolygonMaskType.inside PolygonMaskInlineArrangement.onePerPoint in
  exists e,
    (e = NetworkError \/ e = DownloadFailed) /\
    @_initRawData offline_host (Some true) w
    = (Throw e, fetching "https://particles.js.org/square.svg"%string w) /\
    this (fetching "https://particles.js.org/square.svg"%string w) = this w /\
    dispatched (fetching "https://particles.js.org/square.svg"%string w) = dispatched w.
Proof.
  apply (@failed_download_keeps_mask offline_host
           (square_world PolygonMaskType.inside PolygonMaskInlineArrangement.onePerPoint)
           (sample_options PolygonMaskType.inside PolygonMaskInlineArrangement.onePerPoint)
           "https://particles.js.org/square.svg"%string (Some true)).
  - reflexivity.
  - reflexivity.
  - right; reflexivity.
  - left; reflexivity.
Defined.

Lemma inline_data_without_svg_witness :
  @_initRawData blank_host None inline_data_world = (Throw TypeError, inline_data_world).
Proof.
  apply (@inline_data_without_svg blank_host inline_data_world
           {| enable := true; type := PolygonMaskType.inside;
              url := None; data := Some (DataString "<p/>"%string);
              position := None; scale := 1; move_radius := 10;
              inline_arrangement := PolygonMaskInlineArrangement.onePerPoint;
              draw_enable := true |}
           (Text "<p/>"%string) None).
  - reflexivity.
  - reflexivity.
  - reflexivity.
  - left; reflexivity.
  - reflexivity.
Defined.

(** ** [init] and [_createPath2D] *)

Section Init.

Context {E : Externals}.

(** X20.  After [init] has succeeded on an enabled mask with a configured
    source and nothing cached, the mask is ready: the scale and the move
    radius hold the configured values times the pixel ratio, the raw polygon
    is the one flattened from the parsed paths with that scale and the
    offset computed for the current canvas, paths and offset are set, the
    load was announced once, and the containment test no longer throws. *)
Theorem init_makes_ready (w w1 : World) options :
  polygon (container w) = Some options ->
  enable options = true ->
  ~ no_source options ->
  paths (this w) = None ->
  init w = (Ok tt, w1) ->
  _scale (this w1) = scale options * pixelRatio (container w) /\
  _moveRadius (this w1) = move_radius options * pixelRatio (container w) /\
  (exists doc svg urls,
      loads options doc svg urls /\
      raw (this w1)
      = Some (parsePaths (fresh_paths doc svg) (_scale (this w1))
                (fresh_offset options (canvas_size (container w))
                   (fresh_dimension svg (_scale (this w1))))) /\
      offset (this w1)
      = Some (fresh_offset options (canvas_size (container w))
                (fresh_dimension svg (_scale (this w1)))) /\
      fetched w1 = fetched w ++ urls) /\
  paths (this w1) <> None /\
  dispatched w1 = dispatched w ++ ["polygonMaskLoaded"%string] /\
  (forall position e, fst (_checkInsidePolygon position w1) <> Throw e).
Proof.
  intros Ho Hen Hsource Hp. unfold init, bind at 1, get. rewrite Ho.
  unfold bind at 1, put. rewrite Hen.
  set (w' := set_this _ w).
  assert (Ho' : polygon (container w') = Some options) by exact Ho.
  assert (Hp' : paths (this w') = None) by exact Hp.
  rewrite initRawData_source, Ho'. unfold bind at 1.
  destruct (load_source options None w') as [[[]| |] wa] eqn:Hsrc; try discriminate.
  destruct (load_source_succeeded w' wa options None Ho' (or_introl Hp') Hsource Hsrc)
    as (doc & svg & urls & Hloads).
  rewrite (load_source_loads w' options doc svg urls None Ho' (or_introl Hp') Hloads) in Hsrc.
  injection Hsrc as <-.
  set (wa := loaded_world options doc svg urls w') in *.
  unfold bind at 1.
  destruct (createPath2D_frame wa wa eq_refl eq_refl) as (_ & Hthisb & Hcontb & Hfetb & Hdisb).
  destruct (_createPath2D wa) as [[[]| |] wb] eqn:Hcreate; try discriminate.
  simpl in Hthisb, Hcontb, Hfetb, Hdisb.
  unfold dispatchEvent. intro H. injection H as <-.
  assert (Hpb : paths (this wb) <> None).
  { destruct (createPath2D_leaves wa wb options Ho' Hcreate) as (_ & _ & _ & Hkeep & _).
    apply Hkeep. discriminate. }
  simpl. rewrite Hthisb. simpl.
  split; [reflexivity|]. split; [reflexivity|]. split; [|split; [|split]].
  - exists doc, svg, urls. split; [exact Hloads|]. rewrite Hfetb. repeat split.
  - rewrite Hthisb in Hpb. exact Hpb.
  - now rewrite Hdisb.
  - intros position e Hthrow.
    match type of Hthrow with fst (_checkInsidePolygon _ ?w1) = _ =>
      destruct (checkInsidePolygon_cases w1 position)
        as [[_ Hr]|[(_ & Hraw & _)|(_ & o1 & v1 & _ & _ & _ & _ & Hr)]]
    end.
    + rewrite Hr in Hthrow. discriminate.
    + simpl in Hraw. rewrite Hthisb in Hraw. discriminate.
    + rewrite Hr in Hthrow. discriminate.
Qed.

End Init.

Lemma init_makes_ready_witness :
  let w := fresh_world PolygonMaskType.inside PolygonMaskInlineArrangement.onePerPoint in
  let w1 := snd (@init sample_host w) in
  let options := sample_options PolygonMaskType.inside
                   PolygonMaskInlineArrangement.onePerPoint in
  _scale (this w1) = 1 * 1 /\
  _moveRadius (this w1) = 10 * 1 /\
  (exists doc svg urls,
      @loads sample_host options doc svg urls /\
      raw (this w1)
      = Some (square_anchors (fresh_paths doc svg) (_scale (this w1))
                (fresh_offset options {| width := 800; height := 600 |}
                   (fresh_dimension svg (_scale (this w1))))) /\
      offset (this w1)
      = Some (fresh_offset options {| width := 800; height := 600 |}
                (fresh_dimension svg (_scale (this w1)))) /\
      fetched w1 = fetched w ++ urls) /\
  paths (this w1) <> None /\
  dispatched w1 = dispatched w ++ ["polygonMaskLoaded"%string] /\
  (forall position e, fst (@_checkInsidePolygon sample_host position w1) <> Throw e).
Proof.
  apply (@init_makes_ready sample_host
           (fresh_world PolygonMaskType.inside PolygonMaskInlineArrangement.onePerPoint)
           (snd (@init sample_host
                   (fresh_world PolygonMaskType.inside
                      PolygonMaskInlineArrangement.onePerPoint)))
           (sample_options PolygonMaskType.inside PolygonMaskInlineArrangement.onePerPoint)).
  - reflexivity.
  - reflexivity.
  - intros [H _]. discriminate H.
  - reflexivity.
  - reflexivity.
Defined.

Section Path2D.

Context {E : Externals}.

Lemma createPath2D_step_ok (scale : Q) raw path path' :
  createPath2D_step scale raw path = Ok path' ->
  ISvgPath.element path' = ISvgPath.element path /\
  ISvgPath.length path' = ISvgPath.length path /\
  (raw <> None -> ISvgPath.path2d path' <> None).
Proof.
  unfold createPath2D_step.
  destruct (truthy (attr_d (ISvgPath.element path))) as [d|];
    [destruct hasAddPath|]; destruct raw as [[|first rest]|]; try discriminate;
    intro H; injection H as <-; simpl; repeat split; try discriminate;
    intro Hraw; now contradiction Hraw.
Qed.







End Path2D.


(** ** [draw] *)

Section Drawing.

Context {E : Externals}.

Lemma draw_path_some options o rawData calls path :
  exists new,
    draw_path options o rawData (Some calls) path = Some (calls ++ new) /\
    (List.length new <= 1)%nat.
Proof.
  unfold draw_path.
  destruct (ISvgPath.path2d path) as [p2d|], o as [off|], rawData as [r|];
    try (exists []; rewrite app_nil_r; split; [reflexivity | simpl; lia]);
    eexists [_]; split; try reflexivity; simpl; lia.
Qed.

Lemma fold_draw_path_some options o rawData :
  forall ps calls,
    exists new,
      fold_left (draw_path options o rawData) ps (Some calls) = Some (calls ++ new) /\
      (List.length new <= List.length ps)%nat.
Proof.
  induction ps as [|p ps IH]; intro calls; cbn [fold_left].
  - exists []. rewrite app_nil_r. split; [reflexivity | simpl; lia].
  - destruct (draw_path_some options o rawData calls p) as (new1 & -> & Hlen1).
    destruct (IH (calls ++ new1)) as (new2 & -> & Hlen2).
    exists (new1 ++ new2). rewrite app_assoc. split; [reflexivity|].
    rewrite length_app. simpl List.length. lia.
Qed.

Lemma fold_draw_path_none options o rawData ps :
  fold_left (draw_path options o rawData) ps None = None.
Proof. induction ps as [|p ps IH]; [reflexivity | exact IH]. Qed.

(** X22.  [draw] only adds to what is on the context: it throws nothing,
    leaves the world alone, gives back a missing context as it got it, and
    on a context makes at most one call per path.  It makes no call at all
    unless the mask is enabled, drawing is enabled and at least one path is
    loaded; in particular nothing is drawn any more once [stop] has run. *)
Theorem draw_only_adds (w : World) :
  draw None w = (Ok None, w) /\
  (forall calls, exists new,
      draw (Some calls) w = (Ok (Some (calls ++ new)), w) /\
      (List.length new <= match paths (this w) with
                          | Some ps => List.length ps
                          | None => 0
                          end)%nat /\
      (new <> [] ->
       exists options, polygon (container w) = Some options /\
                       enable options = true /\ draw_enable options = true)) /\
  (forall context, (stop ;; draw context) w = (Ok context, snd (stop w))).
Proof.
  split; [|split].
  - unfold draw. destruct (paths (this w)) as [[|p ps]|]; try reflexivity.
    destruct (polygon (container w)) as [options|]; [|reflexivity].
    destruct (enable options), (draw_enable options); try reflexivity.
    simpl negb. cbv iota. now rewrite fold_draw_path_none.
  - intro calls.
    assert (Hnone : exists new,
               (Ok (Some calls), w) = (Ok (Some (calls ++ new)), w) /\
               (List.length new <= match paths (this w) with
                                   | Some ps => List.length ps
                                   | None => 0
                                   end)%nat /\
               (new <> [] ->
                exists options, polygon (container w) = Some options /\
                                enable options = true /\ draw_enable options = true)).
    { exists []. rewrite app_nil_r. repeat split; [simpl; lia | intro H; now contradiction H]. }
    unfold draw. destruct (paths (this w)) as [[|p ps]|] eqn:Hp; try exact Hnone.
    destruct (polygon (container w)) as [options|]; [|exact Hnone].
    destruct (enable options) eqn:Hen; [|exact Hnone].
    destruct (draw_enable options) eqn:Hdr; [|exact Hnone].
    simpl negb. cbv iota.
    destruct (fold_draw_path_some options (offset (this w)) (raw (this w)) (p :: ps) calls)
      as (new & -> & Hlen).
    exists new. repeat split; [exact Hlen|]. intros _. exists options. repeat split; assumption.
  - intro context. reflexivity.
Qed.

(** X23.  After a load, [draw] strokes the precise paths.  With the mask and
    drawing enabled, an offset stored, a raw polygon present and every path
    carrying the [path2d] that [_createPath2D] gives it, [draw] makes exactly
    one call per path, in the order of the paths, each through the
    [path2d] of its path and the stored offset; the raw outline is not
    used. *)
Theorem draw_after_load (w : World) options ps o r calls :
  polygon (container w) = Some options ->
  enable options = true ->
  draw_enable options = true ->
  paths (this w) = Some ps ->
  offset (this w) = Some o ->
  raw (this w) = Some r ->
  path2d_settled (this w) ->
  exists drawn,
    draw (Some calls) w = (Ok (Some (calls ++ drawn)), w) /\
    Forall2 (fun path call =>
               exists path2d, ISvgPath.path2d path = Some path2d /\
                              call = DrawPolygonMaskPath path2d options o)
            ps drawn.
Proof.
  intros Ho Hen Hdr Hp Hoff Hraw Hsettled.
  unfold path2d_settled in Hsettled. rewrite Hp, Hraw in Hsettled.
  assert (Hfold : forall ps calls,
             Forall (fun p => createPath2D_step (_scale (this w)) (Some r) p = Ok p) ps ->
             exists drawn,
               fold_left (draw_path options (Some o) (Some r)) ps (Some calls)
               = Some (calls ++ drawn) /\
               Forall2 (fun path call =>
                          exists path2d, ISvgPath.path2d path = Some path2d /\
                                         call = DrawPolygonMaskPath path2d options o)
                       ps drawn).
  { clear. induction ps as [|p ps IH]; intros calls Hall.
    - exists []. rewrite app_nil_r. split; [reflexivity | constructor].
    - inversion Hall as [|? ? Hstep Hrest]; subst.
      assert (H2d : ISvgPath.path2d p <> None).
      { destruct (createPath2D_step_ok _ _ _ _ Hstep) as (_ & _ & H). apply H. discriminate. }
      destruct (ISvgPath.path2d p) as [p2d|] eqn:Hp2d; [|now contradiction H2d].
      destruct (IH (calls ++ [DrawPolygonMaskPath p2d options o]) Hrest)
        as (drawn & Hdrawn & Hall2).
      exists (DrawPolygonMaskPath p2d options o :: drawn). split.
      + simpl. rewrite Hp2d, Hdrawn, <- app_assoc. reflexivity.
      + constructor; [eauto | exact Hall2]. }
  destruct (Hfold ps calls Hsettled) as (drawn & Hdrawn & Hall).
  exists drawn. split; [|exact Hall].
  unfold draw. rewrite Hp, Ho, Hen, Hdr, Hoff, Hraw.
  destruct ps as [|p ps].
  - inversion Hall; subst. now rewrite app_nil_r.
  - simpl negb. cbv iota. now rewrite Hdrawn.
Qed.

End Drawing.

Lemma draw_after_load_witness :
  let w0 := fresh_world PolygonMaskType.inside PolygonMaskInlineArrangement.onePerPoint in
  let w := set_container
             (set_polygon
                (Some {| enable := true; type := PolygonMaskType.inside;
                         url := Some "https://particles.js.org/square.svg"%string;
                         data := None; position := Some (pt 50 50); scale := 1;
                         move_radius := 10;
                         inline_arrangement := PolygonMaskInlineArrangement.onePerPoint;
                         draw_enable := true |})
                (container w0))
             (snd (@init sample_host w0)) in
  exists drawn,
    draw (Some []) w = (Ok (Some ([] ++ drawn)), w) /\
    Forall2 (fun path call =>
               exists path2d,
                 ISvgPath.path2d path = Some path2d /\
                 call = DrawPolygonMaskPath path2d
                          {| enable := true; type := PolygonMaskType.inside;
                             url := Some "https://particles.js.org/square.svg"%string;
                             data := None; position := Some (pt 50 50); scale := 1;
                             move_radius := 10;
                             inline_arrangement := PolygonMaskInlineArrangement.onePerPoint;
                             draw_enable := true |}
                          {| x := 800 * 50 / 100 - 200 * (1 * 1) / 2;
                             y := 600 * 50 / 100 - 100 * (1 * 1) / 2 |})
            [ {| ISvgPath.element := square_element; ISvgPath.length := 40;
                 ISvgPath.path2d :=
                   Some (Path2D_scaled "M0 0L10 0L10 10L0 10Z"%string (1 * 1)) |} ]
            drawn.
Proof.
  eapply (@draw_after_load sample_host); try reflexivity.
  repeat constructor.
Defined.

(** ** [resize] *)

Section Resize.

Lemma clear_pending_last (i : PolygonMaskInstance) (win : Window) :
  last_handle (clear_pending i win) = last_handle win.
Proof. unfold clear_pending. now destruct (redrawTimeout i) as [[|h]|]. Qed.

Lemma clear_pending_known (i : PolygonMaskInstance) (win : Window) :
  handles_known win -> handles_known (clear_pending i win).
Proof.
  unfold handles_known, clear_pending.
  destruct (redrawTimeout i) as [[|h]|]; try tauto.
  simpl. intro H. rewrite Forall_forall in *. intros t Ht.
  apply filter_In in Ht. apply H. tauto.
Qed.

(** Clearing the newest timer leaves the timers that were there before it. *)
Lemma clear_newest (win : Window) (ms : nat) :
  handles_known win ->
  timers (clearTimeout (S (last_handle win)) (snd (setTimeout ms win))) = timers win.
Proof.
  unfold handles_known, clearTimeout, setTimeout. simpl. intro H.
  rewrite filter_app. simpl. rewrite Nat.eqb_refl. simpl. rewrite app_nil_r.
  induction H as [|t ts Ht _ IH]; [reflexivity|].
  simpl. destruct (Nat.eqb (handle t) (S (last_handle win))) eqn:Heq.
  - apply Nat.eqb_eq in Heq. lia.
  - simpl. now rewrite IH.
Qed.

Lemma resize_arms (w : World) (win : Window) options :
  polygon (container w) = Some options ->
  enable options = true ->
  type options <> PolygonMaskType.none ->
  resize win w
  = (Ok (snd (setTimeout 250 (clear_pending (this w) win))),
     set_this (set_redrawTimeout (Some (S (last_handle win))) (this w)) w).
Proof.
  intros Ho Hen Hty. unfold resize. rewrite Ho, Hen.
  destruct (type options); try (now contradiction Hty);
    simpl; now rewrite clear_pending_last.
Qed.

(** X24.  [resize] debounces.  With the mask enabled and a type other than
    [none], however many times [resize] is called in a row (at least once),
    the window ends with exactly one timer more than the timers that were
    not the instance's own: the newest one, of 250 ms, whose handle is the
    one stored in [redrawTimeout]; every timer armed by an earlier call has
    been cleared.  Nothing else of the instance is touched until the timer
    fires. *)
Theorem resize_debounces (n : nat) :
  forall (w : World) (win : Window) options,
    polygon (container w) = Some options ->
    enable options = true ->
    type options <> PolygonMaskType.none ->
    handles_known win ->
    resizes (S n) win w
    = (Ok {| timers := timers (clear_pending (this w) win)
                       ++ [ {| handle := (last_handle win + S n)%nat;
                               delay := 250%nat |} ];
             last_handle := (last_handle win + S n)%nat |},
       set_this (set_redrawTimeout (Some (last_handle win + S n)%nat) (this w)) w).
Proof.
  induction n as [|n IH]; intros w win options Ho Hen Hty Hknown.
  - simpl resizes. unfold bind. rewrite (resize_arms w win options Ho Hen Hty).
    unfold ret, setTimeout. simpl. rewrite clear_pending_last, Nat.add_1_r. reflexivity.
  - change (resizes (S (S n)) win w)
      with ((let* win' := resize win in resizes (S n) win') w).
    unfold bind. rewrite (resize_arms w win options Ho Hen Hty).
    set (cleared := clear_pending (this w) win).
    assert (Hck : handles_known cleared) by now apply clear_pending_known.
    assert (Hcl : last_handle cleared = last_handle win) by apply clear_pending_last.
    rewrite (IH (set_this (set_redrawTimeout (Some (S (last_handle win))) (this w)) w)
               (snd (setTimeout 250 cleared)) options Ho Hen Hty).
    + assert (Hold : timers (clear_pending
                               (this (set_this (set_redrawTimeout
                                                  (Some (S (last_handle win))) (this w)) w))
                               (snd (setTimeout 250 cleared)))
                     = timers cleared).
      { unfold clear_pending at 1. simpl redrawTimeout. rewrite <- Hcl.
        now apply clear_newest. }
      rewrite Hold. simpl last_handle. rewrite Hcl.
      replace (S (last_handle win) + S n)%nat with (last_handle win + S (S n))%nat by lia.
      reflexivity.
    + unfold handles_known, setTimeout. simpl. apply Forall_app. split.
      * unfold handles_known in Hck. rewrite Forall_forall in *. intros t Ht.
        specialize (Hck t Ht). lia.
      * constructor; [simpl; lia | constructor].
Qed.

(** [resize] does nothing while the mask is absent, disabled or of
    type [none]: no timer is armed or cleared and the world is left as it
    was, however often it is called. *)
Lemma resize_idle (n : nat) (w : World) (win : Window) :
  match polygon (container w) with
  | Some options =>
      enable options = false \/ type options = PolygonMaskType.none
  | None => True
  end ->
  resizes n win w = (Ok win, w).
Proof.
  intro Hidle.
  assert (Hone : resize win w = (Ok win, w)).
  { unfold resize. destruct (polygon (container w)) as [options|]; [|reflexivity].
    destruct Hidle as [-> | ->]; [reflexivity | now destruct (enable options)]. }
  induction n as [|n IH]; [reflexivity|].
  simpl. unfold bind. now rewrite Hone.
Qed.

End Resize.

Lemma resize_debounces_witness :
  resizes 3 {| timers := []; last_handle := 0 |}
    (square_world PolygonMaskType.inside PolygonMaskInlineArrangement.onePerPoint)
  = (Ok {| timers := [] ++ [ {| handle := 3; delay := 250 |} ]; last_handle := 3 |},
     set_this (set_redrawTimeout (Some 3%nat) square_instance)
       (square_world PolygonMaskType.inside PolygonMaskInlineArrangement.onePerPoint)).
Proof.
  apply (resize_debounces 2
           (square_world PolygonMaskType.inside PolygonMaskInlineArrangement.onePerPoint)
           {| timers := []; last_handle := 0 |}
           (sample_options PolygonMaskType.inside PolygonMaskInlineArrangement.onePerPoint)).
  - reflexivity.
  - reflexivity.
  - discriminate.
  - constructor.
Defined.

Lemma resize_idle_witness :
  resizes 3 {| timers := []; last_handle := 0 |}
    (square_world PolygonMaskType.none PolygonMaskInlineArrangement.onePerPoint)
  = (Ok {| timers := []; last_handle := 0 |},
     square_world PolygonMaskType.none PolygonMaskInlineArrangement.onePerPoint).
Proof.
  apply (resize_idle 3
           (square_world PolygonMaskType.none PolygonMaskInlineArrangement.onePerPoint)
           {| timers := []; last_handle := 0 |}).
  right. reflexivity.
Defined.

(** ** Containment on simple shapes *)

Section Shapes.

Context {E : Externals}.

Lemma toggle_false_iff (x0 y0 : Q) edge :
  toggle x0 y0 false edge = true <-> crosses_ray edge x0 y0.
Proof.
  destruct edge as [pi pj]. unfold toggle. cbn [fst snd].
  rewrite <- intersect_crosses_ray. now destruct (intersect pi pj x0 y0).
Qed.

(** X25.  On an axis-parallel rectangle with corners (a,b), (c,b), (c,d),
    (a,d), a < c and b < d, the containment test of type [inside] answers
    [true] exactly for the points with a <= x < c and b <= y < d: the left
    and bottom sides belong to the rectangle, the right and top sides do
    not. *)
Theorem rectangle_containment (w : World) options (a b c d x0 y0 : Q) :
  polygon (container w) = Some options ->
  enable options = true ->
  type options = PolygonMaskType.inside ->
  raw (this w) = Some [pt a b; pt c b; pt c d; pt a d] ->
  a < c -> b < d ->
  (_checkInsidePolygon (Some (pt x0 y0)) w = (Ok true, w)
   <-> (a <= x0 /\ x0 < c) /\ (b <= y0 /\ y0 < d)).
Proof.
  intros Ho Hen Hty Hraw Hac Hbd.
  rewrite (checkInsidePolygon_at w options _ (Some (pt x0 y0)) Ho Hen (or_introl Hty) Hraw).
  rewrite Hty. cbn [masked test_point after_test x y].
  assert (Hleft : intersect (pt a b) (pt a d) x0 y0 = true <-> (b <= y0 /\ y0 < d) /\ x0 < a).
  { rewrite intersect_crosses_ray. unfold crosses_ray, crossing_x, pt. cbn [x y].
    assert (Hx : (a - a) * (y0 - b) / (d - b) + a == a) by (field; lra).
    rewrite Hx. split.
    - intros [[[H1 H2]|[H1 H2]] H3]; repeat split; lra.
    - intros [[H1 H2] H3]. split; [right; split; lra | lra]. }
  assert (Hright : intersect (pt c d) (pt c b) x0 y0 = true <-> (b <= y0 /\ y0 < d) /\ x0 < c).
  { rewrite intersect_crosses_ray. unfold crosses_ray, crossing_x, pt. cbn [x y].
    assert (Hx : (c - c) * (y0 - d) / (b - d) + c == c) by (field; lra).
    rewrite Hx. split.
    - intros [[[H1 H2]|[H1 H2]] H3]; repeat split; lra.
    - intros [[H1 H2] H3]. split; [left; split; lra | lra]. }
  assert (Hbottom : intersect (pt c b) (pt a b) x0 y0 = false).
  { destruct (intersect (pt c b) (pt a b) x0 y0) eqn:Hi; [|reflexivity].
    apply intersect_crosses_ray in Hi. unfold crosses_ray, pt in Hi. cbn [x y] in Hi.
    destruct Hi as [[[H1 H2]|[H1 H2]] _]; lra. }
  assert (Htop : intersect (pt a d) (pt c d) x0 y0 = false).
  { destruct (intersect (pt a d) (pt c d) x0 y0) eqn:Hi; [|reflexivity].
    apply intersect_crosses_ray in Hi. unfold crosses_ray, pt in Hi. cbn [x y] in Hi.
    destruct Hi as [[[H1 H2]|[H1 H2]] _]; lra. }
  unfold closed_edges. cbn [last edges_from fold_left]. unfold toggle. cbn [fst snd].
  change (x (pt x0 y0)) with x0. change (y (pt x0 y0)) with y0.
  rewrite Hbottom, Htop.
  destruct (intersect (pt a b) (pt a d) x0 y0);
    destruct (intersect (pt c d) (pt c b) x0 y0); cbn [negb].
  - destruct (proj1 Hleft eq_refl) as [_ Hxa].
    split; [discriminate|]. intros [[H1 H2] _]. lra.
  - destruct (proj1 Hleft eq_refl) as [Hy Hxa].
    assert (Hr : false = true) by (apply Hright; split; [exact Hy | lra]).
    discriminate Hr.
  - destruct (proj1 Hright eq_refl) as [Hy Hxc].
    split; [intros _|reflexivity].
    split; [split; [|exact Hxc] | exact Hy].
    apply Qnot_lt_le. intro Hlt.
    assert (Hl : false = true) by (apply Hleft; split; assumption).
    discriminate Hl.
  - split; [discriminate|]. intros [[H1 H2] H3].
    assert (Hr : false = true) by (apply Hright; split; assumption).
    discriminate Hr.
Qed.

Lemma intersect_same_side (pi pj : ICoordinates) (x0 y0 : Q) :
  gtb (y pi) y0 = gtb (y pj) y0 -> intersect pi pj x0 y0 = false.
Proof. unfold intersect. intros ->. now rewrite Bool.eqb_reflx. Qed.

Lemma edges_from_in (prev : ICoordinates) :
  forall vertices edge,
    In edge (edges_from prev vertices) ->
    In (fst edge) vertices /\ (snd edge = prev \/ In (snd edge) vertices).
Proof.
  intros vertices. revert prev.
  induction vertices as [|p rest IH]; intros prev edge; simpl; [intros []|].
  intros [<-|Hin].
  - simpl. split; [now left | now left].
  - destruct (IH p edge Hin) as [Hfst Hsnd]. split; [now right|].
    right. destruct Hsnd as [->|Hsnd]; [now left | now right].
Qed.

Lemma last_in (d : ICoordinates) :
  forall vertices, vertices <> [] -> In (last vertices d) vertices.
Proof.
  induction vertices as [|p rest IH]; intro Hne; [contradiction|].
  destruct rest as [|q rest]; [now left|].
  right. apply IH. discriminate.
Qed.

Lemma closed_edges_in (vertices : list ICoordinates) edge :
  In edge (closed_edges vertices) -> In (fst edge) vertices /\ In (snd edge) vertices.
Proof.
  destruct vertices as [|p0 rest] eqn:Hv; [intros []|]. rewrite <- Hv.
  assert (Hne : vertices <> []) by (rewrite Hv; discriminate).
  replace (closed_edges vertices) with (edges_from (last vertices p0) vertices)
    by (rewrite Hv; reflexivity).
  intro Hin. destruct (edges_from_in _ _ _ Hin) as [Hfst Hsnd].
  split; [exact Hfst|]. destruct Hsnd as [->|Hsnd]; [now apply last_in | exact Hsnd].
Qed.

Lemma fold_toggle_none (x0 y0 : Q) :
  forall edges flag,
    (forall edge, In edge edges -> intersect (fst edge) (snd edge) x0 y0 = false) ->
    fold_left (toggle x0 y0) edges flag = flag.
Proof.
  induction edges as [|edge rest IH]; intros flag Hnone; [reflexivity|].
  simpl. unfold toggle at 2. rewrite (Hnone edge (or_introl eq_refl)).
  apply IH. intros e He. apply Hnone. now right.
Qed.

(** X26.  A given position that no edge of the polygon straddles is not
    contained.  When every vertex lies strictly above the height of the
    position, or every vertex lies at that height or below, or the polygon
    has fewer than two vertices, no edge passes the test on the two [y]: no
    interpolation is evaluated, the flag stays clear, and the containment
    test answers [false] with type [inside] and [true] with type [outside],
    leaving the world as it was. *)
Theorem unstraddled_point_not_contained (w : World) options vertices p :
  polygon (container w) = Some options ->
  enable options = true ->
  type options = PolygonMaskType.inside \/ type options = PolygonMaskType.outside ->
  raw (this w) = Some vertices ->
  (forall v, In v vertices -> y p < y v) \/
  (forall v, In v vertices -> y v <= y p) \/
  (List.length vertices < 2)%nat ->
  _checkInsidePolygon (Some p) w = (Ok (masked (type options) false), w).
Proof.
  intros Ho Hen Hty Hraw Hside.
  rewrite (checkInsidePolygon_at w options vertices (Some p) Ho Hen Hty Hraw).
  cbn [test_point after_test]. do 3 f_equal.
  apply fold_toggle_none. intros edge Hin.
  destruct (closed_edges_in vertices edge Hin) as [Hfst Hsnd].
  apply intersect_same_side.
  destruct Hside as [Habove|[Hbelow|Hlen]].
  - pose proof (proj2 (gtb_gt _ _) (Habove _ Hfst)) as H1.
    pose proof (proj2 (gtb_gt _ _) (Habove _ Hsnd)) as H2.
    now rewrite H1, H2.
  - pose proof (proj2 (gtb_le _ _) (Hbelow _ Hfst)) as H1.
    pose proof (proj2 (gtb_le _ _) (Hbelow _ Hsnd)) as H2.
    now rewrite H1, H2.
  - destruct vertices as [|v [|v' rest]]; [destruct Hfst| |simpl in Hlen; lia].
    destruct Hfst as [<-|[]]. destruct Hsnd as [<-|[]]. reflexivity.
Qed.

End Shapes.

Lemma rectangle_containment_witness :
  @_checkInsidePolygon sample_host (Some (pt 0 0))
    (square_world PolygonMaskType.inside PolygonMaskInlineArrangement.onePerPoint)
  = (Ok true, square_world PolygonMaskType.inside PolygonMaskInlineArrangement.onePerPoint)
  <-> (0 <= 0 /\ 0 < 10) /\ (0 <= 0 /\ 0 < 10).
Proof.
  apply (@rectangle_containment sample_host
           (square_world PolygonMaskType.inside PolygonMaskInlineArrangement.onePerPoint)
           (sample_options PolygonMaskType.inside PolygonMaskInlineArrangement.onePerPoint)
           0 0 10 10 0 0); reflexivity.
Defined.

Lemma unstraddled_point_not_contained_witness :
  @_checkInsidePolygon sample_host (Some (pt 5 20))
    (square_world PolygonMaskType.inside PolygonMaskInlineArrangement.onePerPoint)
  = (Ok (masked PolygonMaskType.inside false),
     square_world PolygonMaskType.inside PolygonMaskInlineArrangement.onePerPoint).
Proof.
  apply (@unstraddled_point_not_contained sample_host
           (square_world PolygonMaskType.inside PolygonMaskInlineArrangement.onePerPoint)
           (sample_options PolygonMaskType.inside PolygonMaskInlineArrangement.onePerPoint)
           square (pt 5 20)).
  - reflexivity.
  - reflexivity.
  - left; reflexivity.
  - reflexivity.
  - right; left. intros v Hin. simpl in Hin.
    destruct Hin as [<-|[<-|[<-|[<-|[]]]]]; vm_compute; discriminate.
Defined.

(** * The options class [ParticlesRepulse] *)

(** X27.  Loading options in layers: loading one data object and then
    another leaves the fields of the class ([enabled], [distance],
    [duration], [factor], [speed]) as loading the two laid over each other
    does, the later one winning field by field; a field absent from both
    keeps its value, and a present range goes through [setRangeValue] once.
    Loading no data leaves these fields as they were. *)
Theorem ParticlesRepulse_load_layers
        (Base BaseData : Type)
        (ValueWithRandom_load : option BaseData -> Base -> Base)
        (setRangeValue : ParticlesRepulse.RangeValue -> ParticlesRepulse.RangeValue)
        (first second : ParticlesRepulse.Data BaseData)
        (s : ParticlesRepulse.t Base) :
  let load := ParticlesRepulse.load Base BaseData ValueWithRandom_load setRangeValue in
  ParticlesRepulse.own Base (load (Some second) (load (Some first) s))
  = ParticlesRepulse.own Base
      (load (Some (ParticlesRepulse.overlay BaseData first second)) s) /\
  ParticlesRepulse.own Base (load None s) = ParticlesRepulse.own Base s.
Proof.
  split; [|reflexivity].
  unfold ParticlesRepulse.own, ParticlesRepulse.load, ParticlesRepulse.overlay,
    ParticlesRepulse.later. simpl.
  destruct (ParticlesRepulse.data_enabled BaseData second),
    (ParticlesRepulse.data_distance BaseData second),
    (ParticlesRepulse.data_duration BaseData second),
    (ParticlesRepulse.data_factor BaseData second),
    (ParticlesRepulse.data_speed BaseData second); reflexivity.
Qed.

(** * The reload armed by [resize] *)

Section ResizeCallback.

Context {E : Externals}.

(** X28.  The callback armed by [resize] reloads past the cache and follows
    the canvas.  With a URL configured: if the download fails, the callback
    ends there and the host's redraw is not run; if the forced load
    succeeds, the URL has been fetched once more whatever was cached, the
    offset is the one computed from the canvas size at that moment and the
    freshly scaled dimension, and the redraw runs on the reloaded world. *)
Theorem resize_callback_reloads (w : World) options u (redraw : M unit) :
  polygon (container w) = Some options ->
  truthy (url options) = Some u ->
  ((server u = None \/ (exists req, server u = Some req /\ ok req = false)) ->
   exists e, resize_callback redraw w = (Throw e, fetching u w)) /\
  (forall w1, _initRawData (Some true) w = (Ok tt, w1) ->
     resize_callback redraw w = redraw w1 /\
     fetched w1 = fetched w ++ [u] /\
     offset (this w1)
     = Some (fresh_offset options (canvas_size (container w)) (dimension (this w1)))).
Proof.
  intros Ho Hu.
  assert (Hfresh : paths (this w) = None \/ forceDownload (Some true) = true)
    by (right; reflexivity).
  split.
  - intro Hserver. unfold resize_callback, bind at 1.
    rewrite initRawData_source, Ho. unfold bind at 1, load_source. rewrite Hu.
    unfold bind at 1.
    rewrite (downloadSvgPath_fresh w options u (Some true) Ho (truthy_idem _ _ Hu) Hfresh).
    destruct Hserver as [Hs|(req & Hs & Hok)]; rewrite Hs; [|rewrite Hok]; eauto.
  - intros w1 Hload. split.
    + unfold resize_callback, bind. now rewrite Hload.
    + rewrite initRawData_source, Ho in Hload. unfold bind at 1 in Hload.
      destruct (load_source options (Some true) w) as [[[]| |] wa] eqn:Hsrc;
        try discriminate.
      assert (Hsource : ~ no_source options) by (intros [H _]; congruence).
      destruct (load_source_succeeded w wa options (Some true) Ho Hfresh Hsource Hsrc)
        as (doc & svg & urls & Hloads).
      rewrite (load_source_loads w options doc svg urls (Some true) Ho Hfresh Hloads) in Hsrc.
      injection Hsrc as <-.
      set (wa := loaded_world options doc svg urls w) in *.
      unfold bind at 1 in Hload.
      destruct (createPath2D_frame wa wa eq_refl eq_refl)
        as (_ & Hthisb & _ & Hfetb & _).
      destruct (_createPath2D wa) as [[[]| |] wb] eqn:Hcreate; try discriminate.
      simpl in Hthisb, Hfetb.
      unfold dispatchEvent in Hload. injection Hload as <-.
      simpl. rewrite Hthisb, Hfetb. simpl.
      pose proof (loads_urls options doc svg urls Hloads) as Hurls.
      rewrite Hu in Hurls. rewrite Hurls. split; reflexivity.
Qed.

End ResizeCallback.

Lemma resize_callback_reloads_witness :
  let w := square_world PolygonMaskType.inside PolygonMaskInlineArrangement.onePerPoint in
  let u := "https://particles.js.org/square.svg"%string in
  ((@server sample_host u = None \/
    (exists req, @server sample_host u = Some req /\ ok req = false)) ->
   exists e, @resize_callback sample_host (ret tt) w = (Throw e, fetching u w)) /\
  (forall w1, @_initRawData sample_host (Some true) w = (Ok tt, w1) ->
     @resize_callback sample_host (ret tt) w = ret tt w1 /\
     fetched w1 = fetched w ++ [u] /\
     offset (this w1)
     = Some (fresh_offset
               (sample_options PolygonMaskType.inside
                  PolygonMaskInlineArrangement.onePerPoint)
               {| width := 800; height := 600 |} (dimension (this w1)))).
Proof.
  apply (@resize_callback_reloads sample_host
           (square_world PolygonMaskType.inside PolygonMaskInlineArrangement.onePerPoint)
           (sample_options PolygonMaskType.inside PolygonMaskInlineArrangement.onePerPoint)
           "https://particles.js.org/square.svg"%string (ret tt)); reflexivity.
Defined.
